(** * runmacs: an Emacs-Lisp compatibility runtime on top of a host Lisp

    Shallow embedding of the parts of [main.go] that the specification talks
    about: the elisp [defun] parameter handling, keymaps, buffers with literal
    search and [replace-match], the special forms [let], [let*],
    [condition-case], [unwind-protect] and [cl-loop], and the source
    preprocessor.

    Go strings are byte sequences and are modelled by [string] (one [ascii]
    per byte); [[]rune] is a list of code points in [Z]; Go's [int] and
    [int64] are [Z] with the wrap-around written out where the code can
    overflow.  The host evaluator (package golisp) is not part of the
    program: its value space and symbol-table frames are modelled by a small
    concrete heap, and its [Eval] is a parameter of every definition that
    calls it. *)

From Stdlib Require Import ZArith Lia Ascii String List Bool DecimalString.
From stdpp Require Import base option gmap strings list.

Local Open Scope Z_scope.

(** ** Go primitives *)

Module Go.

(** [int] and [int64] are 64 bits wide on the platforms the program runs on. *)
Definition wrap64 (z : Z) : Z := (z + 2 ^ 63) mod 2 ^ 64 - 2 ^ 63.

Definition maxInt64 : Z := 2 ^ 63 - 1.
Definition minInt64 : Z := - 2 ^ 63.

(** The numeric value of a byte. *)
Definition byteZ (c : ascii) : Z := Z.of_N (N_of_ascii c).

Definition byteOfZ (z : Z) : ascii := ascii_of_N (Z.to_N (z mod 256)).

Definition inRange (lo hi : Z) (c : ascii) : bool :=
  (lo <=? byteZ c) && (byteZ c <=? hi).

(** [len(s)] for a string: the number of bytes. *)
Definition len (s : string) : Z := Z.of_nat (String.length s).

(** [strconv.Itoa] / [strconv.FormatInt(v, 10)] / the [%d] verb. *)
Definition Itoa (z : Z) : string := NilZero.string_of_int (Z.to_int z).

(** [strings.HasPrefix] together with the remainder after the prefix. *)
Fixpoint CutPrefix (p s : string) : option string :=
  match p, s with
  | EmptyString, _ => Some s
  | String a p', String b s' => if Ascii.eqb a b then CutPrefix p' s' else None
  | String _ _, EmptyString => None
  end.

Definition HasPrefix (s p : string) : bool :=
  match CutPrefix p s with Some _ => true | None => false end.

(** [strings.Index]: byte offset of the first occurrence, or -1. *)
Fixpoint Index (s needle : string) : Z :=
  if HasPrefix s needle then 0
  else match s with
       | EmptyString => -1
       | String _ s' => let r := Index s' needle in if r <? 0 then -1 else 1 + r
       end.

(** [strings.Contains]. *)
Definition Contains (s needle : string) : bool := 0 <=? Index s needle.

(** The longest prefix of bytes satisfying [p], and the rest. *)
Fixpoint span (p : ascii -> bool) (s : string) : string * string :=
  match s with
  | EmptyString => (EmptyString, EmptyString)
  | String c s' =>
      if p c then let '(a, b) := span p s' in (String c a, b)
      else (EmptyString, s)
  end.

(** Value of a digit byte in a base up to 16, as [strconv.ParseInt] reads it. *)
Definition digitVal (c : ascii) : option Z :=
  if inRange 48 57 c then Some (byteZ c - 48)
  else if inRange 97 102 c then Some (byteZ c - 97 + 10)
  else if inRange 65 70 c then Some (byteZ c - 65 + 10)
  else None.

Fixpoint parseDigits (base : Z) (acc : Z) (s : string) : option Z :=
  match s with
  | EmptyString => Some acc
  | String c s' =>
      match digitVal c with
      | Some d => if d <? base then parseDigits base (acc * base + d) s' else None
      | None => None
      end
  end.

(** [strconv.ParseInt(s, base, 64)] on an unsigned digit string: a syntax
    error for the empty string or a digit outside the base, a range error
    above the largest [int64]. *)
Definition ParseUint63 (s : string) (base : Z) : option Z :=
  match s with
  | EmptyString => None
  | _ => match parseDigits base 0 s with
         | Some v => if v <=? maxInt64 then Some v else None
         | None => None
         end
  end.

(** *** UTF-8 *)

Definition RuneError : Z := 65533.

(** [utf8.EncodeRune] / [string(rune)]: surrogates and out-of-range code
    points are encoded as U+FFFD. *)
Definition encodeRune (r : Z) : list ascii :=
  if (0 <=? r) && (r <? 128) then [byteOfZ r]
  else if (128 <=? r) && (r <? 2048) then
    [byteOfZ (192 + r / 64); byteOfZ (128 + r mod 64)]
  else if ((2048 <=? r) && (r <? 55296)) || ((57344 <=? r) && (r <? 65536)) then
    [byteOfZ (224 + r / 4096); byteOfZ (128 + (r / 64) mod 64);
     byteOfZ (128 + r mod 64)]
  else if (65536 <=? r) && (r <=? 1114111) then
    [byteOfZ (240 + r / 262144); byteOfZ (128 + (r / 4096) mod 64);
     byteOfZ (128 + (r / 64) mod 64); byteOfZ (128 + r mod 64)]
  else [byteOfZ 239; byteOfZ 191; byteOfZ 189].

Fixpoint stringOfBytes (l : list ascii) : string :=
  match l with
  | [] => EmptyString
  | c :: l' => String c (stringOfBytes l')
  end.

(** [string(rs)] for [rs []rune]. *)
Fixpoint stringOfRunes (rs : list Z) : string :=
  match rs with
  | [] => EmptyString
  | r :: rs' => String.append (stringOfBytes (encodeRune r)) (stringOfRunes rs')
  end.

Definition cont (lo hi : Z) (c : ascii) : option Z :=
  if inRange lo hi c then Some (byteZ c mod 64) else None.

(** [utf8.DecodeRuneInString]: the first code point of [s] and its width in
    bytes; an invalid or truncated encoding is [RuneError] of width 1. *)
Definition decodeRune (s : string) : Z * nat :=
  match s with
  | EmptyString => (RuneError, 0%nat)
  | String b0 s1 =>
      let x := byteZ b0 in
      if x <? 128 then (x, 1%nat)
      else if (194 <=? x) && (x <=? 223) then
        match s1 with
        | String b1 _ =>
            match cont 128 191 b1 with
            | Some c1 => ((x - 192) * 64 + c1, 2%nat)
            | None => (RuneError, 1%nat)
            end
        | _ => (RuneError, 1%nat)
        end
      else if (224 <=? x) && (x <=? 239) then
        let lo := if x =? 224 then 160 else 128 in
        let hi := if x =? 237 then 159 else 191 in
        match s1 with
        | String b1 (String b2 _) =>
            match cont lo hi b1, cont 128 191 b2 with
            | Some c1, Some c2 => ((x - 224) * 4096 + c1 * 64 + c2, 3%nat)
            | _, _ => (RuneError, 1%nat)
            end
        | _ => (RuneError, 1%nat)
        end
      else if (240 <=? x) && (x <=? 244) then
        let lo := if x =? 240 then 144 else 128 in
        let hi := if x =? 244 then 143 else 191 in
        match s1 with
        | String b1 (String b2 (String b3 _)) =>
            match cont lo hi b1, cont 128 191 b2, cont 128 191 b3 with
            | Some c1, Some c2, Some c3 =>
                ((x - 240) * 262144 + c1 * 4096 + c2 * 64 + c3, 4%nat)
            | _, _, _ => (RuneError, 1%nat)
            end
        | _ => (RuneError, 1%nat)
        end
      else (RuneError, 1%nat)
  end.

Fixpoint dropBytes (n : nat) (s : string) : string :=
  match n, s with
  | O, _ => s
  | S n', String _ s' => dropBytes n' s'
  | S _, EmptyString => EmptyString
  end.

Fixpoint takeBytes (n : nat) (s : string) : string :=
  match n, s with
  | O, _ => EmptyString
  | S n', String c s' => String c (takeBytes n' s')
  | S _, EmptyString => EmptyString
  end.

(** [[]rune(s)]; the fuel is the byte length, every step consumes a byte. *)
Fixpoint runesFuel (fuel : nat) (s : string) : list Z :=
  match fuel with
  | O => []
  | S fuel' =>
      match s with
      | EmptyString => []
      | _ => let '(r, w) := decodeRune s in r :: runesFuel fuel' (dropBytes w s)
      end
  end.

Definition runes (s : string) : list Z := runesFuel (String.length s) s.

(** [utf8.RuneCountInString]. *)
Definition RuneCount (s : string) : Z := Z.of_nat (length (runes s)).

(** Slices [xs[lo:hi]] of a Go slice, for bounds already checked. *)
Definition slice {A} (xs : list A) (lo hi : Z) : list A :=
  take (Z.to_nat (hi - lo)) (drop (Z.to_nat lo) xs).

Definition lenL {A} (xs : list A) : Z := Z.of_nat (length xs).

End Go.

(** ** The host value space (package golisp)

    [*golisp.Data] values as far as the program inspects them.  Objects
    carry a type tag and an [unsafe.Pointer]; the pointer is an index into
    the heap of the matching kind in [World]. *)

Inductive Data : Type :=
| Nil                                   (* nil, and [golisp.EmptyCons()] *)
| Int (z : Z)
| Bool (b : bool)
| Str (s : string)
| Sym (s : string)
| Cons (a d : Data)
| Obj (ty : string) (ptr : nat)
| Fn (id : nat).

Module golisp.

Definition NilP (d : Data) : bool := match d with Nil => true | _ => false end.
Definition NotNilP (d : Data) : bool := negb (NilP d).
Definition SymbolP (d : Data) : bool := match d with Sym _ => true | _ => false end.
Definition StringP (d : Data) : bool := match d with Str _ => true | _ => false end.
Definition IntegerP (d : Data) : bool := match d with Int _ => true | _ => false end.
Definition PairP (d : Data) : bool := match d with Cons _ _ => true | _ => false end.
Definition ListP (d : Data) : bool :=
  match d with Nil | Cons _ _ => true | _ => false end.
Definition ObjectP (d : Data) : bool := match d with Obj _ _ => true | _ => false end.
Definition ObjectType (d : Data) : string :=
  match d with Obj ty _ => ty | _ => EmptyString end.

Definition Car (d : Data) : Data := match d with Cons a _ => a | _ => Nil end.
Definition Cdr (d : Data) : Data := match d with Cons _ b => b | _ => Nil end.
Definition Cadr (d : Data) : Data := Car (Cdr d).
Definition Cddr (d : Data) : Data := Cdr (Cdr d).
Definition Caddr (d : Data) : Data := Car (Cddr d).
Definition Cdddr (d : Data) : Data := Cdr (Cddr d).

Definition StringValue (d : Data) : string :=
  match d with Str s | Sym s => s | _ => EmptyString end.
Definition IntegerValue (d : Data) : Z := match d with Int z => z | _ => 0 end.
Definition BooleanValue (d : Data) : bool :=
  match d with Nil => false | Bool b => b | _ => true end.

Fixpoint ToArray (d : Data) : list Data :=
  match d with Cons a rest => a :: ToArray rest | _ => [] end.

Fixpoint ArrayToList (l : list Data) : Data :=
  match l with [] => Nil | a :: l' => Cons a (ArrayToList l') end.

Definition Length (d : Data) : Z := Z.of_nat (length (ToArray d)).

End golisp.

(** ** Errors

    The three dynamic types of [error] values the program produces:
    [fmt.Errorf] / [errors.New] text, [throwSignal] and [elSignal]. *)

Inductive goerror : Type :=
| ErrText (msg : string)
| ErrThrow (tag : string) (value : Data)
| ErrSignal (condition : string) (data : Data).

(** The [Error()] methods. *)
Definition errorMessage (e : goerror) : string :=
  match e with
  | ErrText m => m
  | ErrThrow tag _ => "throw: " +:+ tag
  | ErrSignal c _ => if String.eqb c "" then "signal" else "signal: " +:+ c
  end.

(** ** Program state *)

Record Frame := mkFrame {
  frameName : string;
  frameParent : option nat;
  framePrevious : option nat;
  frameBindings : gmap string Data
}.

Record elBuffer := mkBuffer {
  bufName : string;
  localMap : Data;
  text : list Z;
  point : Z
}.

Record elWindow := mkWindow {
  winId : Z;
  winBuffer : nat
}.

Record elKeymap := mkKeymap {
  bindings : gmap string Data;
  fullMap : option Data
}.

Record runtimeState := mkRuntime {
  buffers : gmap string nat;
  windows : gmap Z elWindow;
  selectedWindowID : Z;
  nextWindowID : Z;
  warned : gset string;
  funcByName : gmap string Data;
  matchData : list Z;
  matchString : string;
  matchInString : bool;
  matchBuffer : option nat;
  errorParents : gmap string string
}.

(** Everything reachable through pointers: symbol-table frames, buffers,
    keymaps and vectors live in heaps indexed by their address; [rt] is
    [rtGlobal]. *)
Record World := mkWorld {
  frames : list Frame;
  bufHeap : list elBuffer;
  keymapHeap : list elKeymap;
  vectorHeap : list (list Data);
  rt : runtimeState
}.

Definition setFrames (f : list Frame) (w : World) : World :=
  mkWorld f (bufHeap w) (keymapHeap w) (vectorHeap w) (rt w).
Definition setBufHeap (h : list elBuffer) (w : World) : World :=
  mkWorld (frames w) h (keymapHeap w) (vectorHeap w) (rt w).
Definition setKeymapHeap (h : list elKeymap) (w : World) : World :=
  mkWorld (frames w) (bufHeap w) h (vectorHeap w) (rt w).
Definition setVectorHeap (h : list (list Data)) (w : World) : World :=
  mkWorld (frames w) (bufHeap w) (keymapHeap w) h (rt w).
Definition setRt (r : runtimeState) (w : World) : World :=
  mkWorld (frames w) (bufHeap w) (keymapHeap w) (vectorHeap w) r.

(** ** The monad of the embedding: state, Go errors and run-time panics *)

Inductive Res (A : Type) : Type :=
| Val (a : A)
| Raise (e : goerror)
| Panic (why : string).
Arguments Val {A} a.
Arguments Raise {A} e.
Arguments Panic {A} why.

Definition M (A : Type) : Type := World -> World * Res A.

Definition ret {A} (a : A) : M A := fun w => (w, Val a).
Definition raise {A} (e : goerror) : M A := fun w => (w, Raise e).
Definition panic {A} (why : string) : M A := fun w => (w, Panic why).
Definition bind {A B} (m : M A) (k : A -> M B) : M B :=
  fun w => match m w with
           | (w', Val a) => k a w'
           | (w', Raise e) => (w', Raise e)
           | (w', Panic s) => (w', Panic s)
           end.
Definition get : M World := fun w => (w, Val w).
Definition gets {A} (f : World -> A) : M A := fun w => (w, Val (f w)).
Definition modify (f : World -> World) : M unit := fun w => (f w, Val tt).

(** [v, err := m] without the early return: the error is handed to the
    continuation as a value. *)
Definition try {A} (m : M A) : M (goerror + A) :=
  fun w => match m w with
           | (w', Val a) => (w', Val (inr a))
           | (w', Raise e) => (w', Val (inl e))
           | (w', Panic s) => (w', Panic s)
           end.

Declare Scope go_scope.
Delimit Scope go_scope with go.
Notation "x <- m ;; k" := (bind m (fun x => k))
  (at level 100, m at next level, right associativity) : go_scope.
Notation "m ;;; k" := (bind m (fun _ => k))
  (at level 100, right associativity) : go_scope.
Local Open Scope go_scope.

(** ** Symbol-table frames *)

Module SymbolTable.

(** [golisp.Global] is the frame at address 0. *)
Definition Global : nat := 0%nat.

Definition NewSymbolTableFrameBelow (parent : nat) (name : string) : M nat :=
  fun w =>
    let addr := length (frames w) in
    (setFrames (frames w ++ [mkFrame name (Some parent) None ∅]) w, Val addr).

Definition setPrevious (env prev : nat) : M unit :=
  modify (fun w =>
    setFrames (alter (fun f => mkFrame (frameName f) (frameParent f) (Some prev)
                                       (frameBindings f)) env (frames w)) w).

Definition BindLocallyTo (env : nat) (sym value : Data) : M Data :=
  fun w =>
    (setFrames (alter (fun f => mkFrame (frameName f) (frameParent f)
                                        (framePrevious f)
                                        (<[golisp.StringValue sym := value]>
                                           (frameBindings f)))
                      env (frames w)) w,
     Val value).

(** The frame of the lexical chain of [env] that binds [name]. *)
Fixpoint findFrame (fuel : nat) (fs : list Frame) (env : nat) (name : string)
  : option nat :=
  match fuel with
  | O => None
  | S fuel' =>
      match fs !! env with
      | None => None
      | Some f =>
          match frameBindings f !! name with
          | Some _ => Some env
          | None => match frameParent f with
                    | Some p => findFrame fuel' fs p name
                    | None => None
                    end
          end
      end
  end.

Definition lookup (fs : list Frame) (env : nat) (name : string) : option Data :=
  match findFrame (S (length fs)) fs env name with
  | Some a => match fs !! a with
              | Some f => frameBindings f !! name
              | None => None
              end
  | None => None
  end.

(** [env.ValueOf(sym)]: nil for an unbound symbol. *)
Definition ValueOf (env : nat) (sym : Data) : M Data :=
  gets (fun w => default Nil (lookup (frames w) env (golisp.StringValue sym))).

(** [env.SetTo(sym, v)]: assigns the visible binding, an error without one. *)
Definition SetTo (env : nat) (sym value : Data) : M Data :=
  fun w =>
    match findFrame (S (length (frames w))) (frames w) env (golisp.StringValue sym) with
    | Some a => BindLocallyTo a sym value w
    | None => (w, Raise (ErrText (golisp.StringValue sym +:+ " is undefined")))
    end.

(** [env.BindTo(sym, v)]: assigns the visible binding, or binds globally. *)
Definition BindTo (env : nat) (sym value : Data) : M Data :=
  fun w =>
    match findFrame (S (length (frames w))) (frames w) env (golisp.StringValue sym) with
    | Some a => BindLocallyTo a sym value w
    | None => BindLocallyTo Global sym value w
    end.

End SymbolTable.

(** ** The host evaluator

    [golisp.Eval] and the printer [golisp.String] are supplied by the host. *)

Class Host := {
  Eval : Data -> nat -> M Data;
  hostString : Data -> string
}.

(** The cells visited by [for c := d; golisp.NotNilP(c); c = golisp.Cdr(c)],
    as the values [golisp.Car(c)] seen in the loop body: an improper tail is
    visited once, with car nil. *)
Fixpoint cells (d : Data) : list Data :=
  match d with
  | Nil => []
  | Cons a rest => a :: cells rest
  | _ => [Nil]
  end.

(** ** [defun] with an elisp parameter list *)

Record elispParamSpec := mkSpec {
  required : list Data;
  optional : list Data;
  rest : option Data
}.

Inductive paramMode := modeRequired | modeOptional | modeRest | modeAfterRest.

Section Evaluator.
Context `{Host}.

Definition featureName (d : Data) : string :=
  match d with
  | Nil => ""
  | Sym s | Str s => s
  | _ => hostString d
  end.

Fixpoint parseElispParamLoop (ps : list Data) (mode : paramMode)
    (spec : elispParamSpec) : goerror + elispParamSpec :=
  match ps with
  | [] => inr spec
  | p :: ps' =>
      if negb (golisp.SymbolP p) then
        inl (ErrText ("defun parameter must be symbol, got " +:+ hostString p))
      else
        let name := golisp.StringValue p in
        if String.eqb name "&optional" then parseElispParamLoop ps' modeOptional spec
        else if String.eqb name "&rest" then parseElispParamLoop ps' modeRest spec
        else match mode with
             | modeRequired =>
                 parseElispParamLoop ps' mode
                   (mkSpec (required spec ++ [p]) (optional spec) (rest spec))
             | modeOptional =>
                 parseElispParamLoop ps' mode
                   (mkSpec (required spec) (optional spec ++ [p]) (rest spec))
             | modeRest =>
                 parseElispParamLoop ps' modeAfterRest
                   (mkSpec (required spec) (optional spec) (Some p))
             | modeAfterRest =>
                 inl (ErrText ("unexpected parameter after &rest: " +:+ name))
             end
  end.

Definition parseElispParamSpec (params : Data) : goerror + elispParamSpec :=
  parseElispParamLoop (cells params) modeRequired (mkSpec [] [] None).

Definition hasElispArgMarkers (params : Data) : bool :=
  existsb (fun p => golisp.SymbolP p &&
                    (String.eqb (golisp.StringValue p) "&optional" ||
                     String.eqb (golisp.StringValue p) "&rest"))
          (cells params).

Fixpoint evalLetBodyLoop (forms : list Data) (env : nat) (result : Data) : M Data :=
  match forms with
  | [] => ret result
  | f :: forms' => r <- Eval f env ;; evalLetBodyLoop forms' env r
  end.

Definition evalLetBody (body : Data) (env : nat) : M Data :=
  evalLetBodyLoop (cells body) env Nil.

(** [for _, s := range spec.required { bind s to argArr[idx]; idx++ }] *)
Fixpoint bindRequired (local : nat) (ss : list Data) (argArr : list Data)
    (idx : nat) : M nat :=
  match ss with
  | [] => ret idx
  | s :: ss' =>
      match argArr !! idx with
      | None => panic "index out of range"
      | Some a =>
          SymbolTable.BindLocallyTo local s a ;;;
          bindRequired local ss' argArr (S idx)
      end
  end.

Fixpoint bindOptional (local : nat) (ss : list Data) (argArr : list Data)
    (idx : nat) : M nat :=
  match ss with
  | [] => ret idx
  | s :: ss' =>
      match argArr !! idx with
      | Some a =>
          SymbolTable.BindLocallyTo local s a ;;;
          bindOptional local ss' argArr (S idx)
      | None =>
          SymbolTable.BindLocallyTo local s Nil ;;;
          bindOptional local ss' argArr idx
      end
  end.

Definition tooFewMessage (fnName : string) (need got : Z) : string :=
  fnName +:+ " expected at least " +:+ Go.Itoa need +:+
  " parameters, received " +:+ Go.Itoa got.

Definition tooManyMessage (fnName : string) (need got : Z) : string :=
  fnName +:+ " expected " +:+ Go.Itoa need +:+
  " parameters, received " +:+ Go.Itoa got.

(** The [Body] closure of the primitive built by
    [makeElispDefunWithOptional(name, params, body, parent)]. *)
Definition makeElispDefunWithOptional (name params body : Data) (parent : nat)
    (args : Data) (callEnv : nat) : M Data :=
  let fnName := golisp.StringValue name in
  match parseElispParamSpec params with
  | inl e => raise e
  | inr spec =>
      local <- SymbolTable.NewSymbolTableFrameBelow parent fnName ;;
      SymbolTable.setPrevious local callEnv ;;;
      let argArr := golisp.ToArray args in
      if Go.lenL argArr <? Go.lenL (required spec) then
        raise (ErrText (tooFewMessage fnName (Go.lenL (required spec)) (Go.lenL argArr)))
      else
        idx <- bindRequired local (required spec) argArr 0 ;;
        idx <- bindOptional local (optional spec) argArr idx ;;
        idx <- match rest spec with
               | Some r =>
                   SymbolTable.BindLocallyTo local r
                     (golisp.ArrayToList (drop idx argArr)) ;;;
                   ret (length argArr)
               | None => ret idx
               end ;;
        if (Z.of_nat idx <? Go.lenL argArr) then
          raise (ErrText (tooManyMessage fnName (Z.of_nat idx) (Go.lenL argArr)))
        else evalLetBody body local
  end.

End Evaluator.

(** ** Decoding arity failures from their message text *)

Definition shouldRetryInvokeWithNil (msg : string) : bool :=
  Go.Contains msg "parameters" && Go.Contains msg "received 0".

Definition isDigit (b : ascii) : bool := Go.inRange 48 57 b.

(** One attempt of the pattern [expected(?: at least)? ([0-9]+) parameters]
    at the start of [s]; the result is the text of the capture group. *)
Definition expectedAfter (s : string) : option string :=
  match Go.CutPrefix " " s with
  | None => None
  | Some s1 =>
      let '(ds, s2) := Go.span isDigit s1 in
      match ds with
      | EmptyString => None
      | _ => match Go.CutPrefix " parameters" s2 with
             | Some _ => Some ds
             | None => None
             end
      end
  end.

Definition expectedAt (s : string) : option string :=
  match Go.CutPrefix "expected" s with
  | None => None
  | Some s0 =>
      match match Go.CutPrefix " at least" s0 with
            | Some s1 => expectedAfter s1
            | None => None
            end with
      | Some ds => Some ds
      | None => expectedAfter s0
      end
  end.

(** [re.FindStringSubmatch]: the leftmost match. *)
Fixpoint findExpected (s : string) : option string :=
  match expectedAt s with
  | Some ds => Some ds
  | None => match s with
            | EmptyString => None
            | String _ s' => findExpected s'
            end
  end.

Definition parseExpectedArgCount (msg : string) : Z * bool :=
  match findExpected msg with
  | None => (0, false)
  | Some ds =>
      match Go.ParseUint63 ds 10 with
      | Some n => (n, true)
      | None => (0, false)
      end
  end.

(** ** Vectors and keymaps *)

Section Keymaps.
Context `{Host}.

Definition newElVector (items : list Data) : M Data :=
  fun w =>
    let addr := length (vectorHeap w) in
    (setVectorHeap (vectorHeap w ++ [items]) w, Val (Obj "el-vector" addr)).

Definition isElVector (d : Data) : bool :=
  golisp.ObjectP d && String.eqb (golisp.ObjectType d) "el-vector".

Definition asElVector (d : Data) : nat :=
  match d with Obj _ p => p | _ => 0%nat end.

(** [asElVector(d).items] *)
Definition vectorItems (d : Data) (w : World) : list Data :=
  match d with
  | Obj _ p => default [] (vectorHeap w !! p)
  | _ => []
  end.

Definition newKeymap : M nat :=
  fun w =>
    let addr := length (keymapHeap w) in
    (setKeymapHeap (keymapHeap w ++ [mkKeymap ∅ None]) w, Val addr).

Definition keymapObject (km : nat) : Data := Obj "el-keymap" km.

Definition isKeymap (d : Data) : bool :=
  golisp.ObjectP d && String.eqb (golisp.ObjectType d) "el-keymap".

Definition asKeymap (d : Data) : nat :=
  match d with Obj _ p => p | _ => 0%nat end.

Definition setBinding (km : nat) (key : string) (v : Data) : M unit :=
  modify (fun w =>
    setKeymapHeap
      (alter (fun k => mkKeymap (<[key := v]> (bindings k)) (fullMap k)) km
             (keymapHeap w)) w).

Definition setFullMap (km : nat) (v : Data) : M unit :=
  modify (fun w =>
    setKeymapHeap
      (alter (fun k => mkKeymap (bindings k) (Some v)) km (keymapHeap w)) w).

(** [writeElt]: a vector is updated in place, an index past the end is
    ignored.  Lists are immutable values in this embedding, so the
    [golisp.SetNth] branch leaves the state as it is. *)
Definition writeElt (seq : Data) (idx : Z) (value : Data) : M unit :=
  if idx <? 0 then raise (ErrText "index must be >= 0")
  else if isElVector seq then
    fun w =>
      if Go.lenL (vectorItems seq w) <=? idx then (w, Val tt)
      else (setVectorHeap
              (alter (fun items => <[Z.to_nat idx := value]> items)
                     (asElVector seq) (vectorHeap w)) w, Val tt)
  else if golisp.ListP seq then ret tt
  else raise (ErrText ("set elt unsupported for " +:+ hostString seq)).

Definition asetImpl (args : Data) (env : nat) : M Data :=
  let seq := golisp.Car args in
  let idx := golisp.Cadr args in
  let val := golisp.Caddr args in
  if negb (golisp.IntegerP idx) then
    raise (ErrText ("aset index must be integer, got " +:+ hostString idx))
  else
    writeElt seq (golisp.IntegerValue idx) val ;;;
    ret val.

(** [string(rune(n))] for a printable ASCII code. *)
Definition charString (n : Z) : string := String (Go.byteOfZ n) EmptyString.

(** [keySpecString(d, env)].  The vector case follows the first item; a
    vector that is (transitively) its own first item makes the Go code
    recurse without end, which the fuel reports as a panic. *)
Fixpoint keySpecStringFuel (fuel : nat) (d : Data) (env : option nat) : M string :=
  match d with
  | Str s => ret s
  | Int v =>
      let n := v in
      if (32 <=? n) && (n <=? 126) then ret (charString n)
      else if n =? 9 then ret "TAB"%string
      else if (n =? 10) || (n =? 13) then ret "RET"%string
      else if n =? 27 then ret "ESC"%string
      else ret EmptyString
  | Sym s =>
      v <- match env with
           | Some e => SymbolTable.ValueOf e d
           | None => ret Nil
           end ;;
      if golisp.StringP v then ret (golisp.StringValue v)
      else if String.eqb s "tab" then ret "TAB"%string
      else if String.eqb s "return" then ret "RET"%string
      else if String.eqb s "escape" then ret "ESC"%string
      else ret s
  | _ =>
      if isElVector d then
        items <- gets (vectorItems d) ;;
        match items with
        | [] => ret EmptyString
        | first :: _ =>
            match fuel with
            | O => panic "stack overflow"
            | S fuel' => keySpecStringFuel fuel' first env
            end
        end
      else ret EmptyString
  end.

Definition keySpecString (d : Data) (env : option nat) : M string :=
  fun w => keySpecStringFuel (length (vectorHeap w)) d env w.

(** The scan of the [defvar-keymap] arguments: keywords take one value,
    everything else is a key followed by its (unevaluated) binding. *)
Fixpoint defvarKeymapLoop (c : Data) (km : nat) (env : nat) (full : bool) : M bool :=
  match c with
  | Cons k c1 =>
      if golisp.SymbolP k && Go.HasPrefix (golisp.StringValue k) ":" then
        let full' :=
          if String.eqb (golisp.StringValue k) ":full" && golisp.NotNilP c1 &&
             golisp.NotNilP (golisp.Car c1)
          then true else full in
        match c1 with
        | Cons _ c2 => defvarKeymapLoop c2 km env full'
        | _ => ret full'
        end
      else
        match c1 with
        | Nil => ret full
        | Cons v c2 =>
            key <- keySpecString k (Some env) ;;
            if String.eqb key "" then defvarKeymapLoop c2 km env full
            else setBinding km key v ;;; defvarKeymapLoop c2 km env full
        | _ =>
            key <- keySpecString k (Some env) ;;
            if String.eqb key "" then ret full
            else setBinding km key Nil ;;; ret full
        end
  | _ => ret full
  end.

Definition defvarKeymapImpl (args : Data) (env : nat) : M Data :=
  let name := golisp.Car args in
  if negb (golisp.SymbolP name) then
    raise (ErrText ("defvar-keymap target must be a symbol, got " +:+ hostString name))
  else
    km <- newKeymap ;;
    full <- defvarKeymapLoop (golisp.Cdr args) km env false ;;
    (if full then
       v <- newElVector (replicate 256 Nil) ;;
       setFullMap km v
     else ret tt) ;;;
    SymbolTable.BindLocallyTo env name (keymapObject km) ;;;
    ret name.

Definition makeSparseKeymapImpl (_ : Data) (_ : nat) : M Data :=
  km <- newKeymap ;; ret (keymapObject km).

(** The write at the end of [defineKeyImpl]: into the sparse map, and for
    a key of one byte into the dense table when the keymap has one. *)
Definition writeBinding (km : nat) (key : string) (def : Data) (env : nat) : M Data :=
  setBinding km key def ;;;
  kmv <- gets (fun w => keymapHeap w !! km) ;;
  match kmv with
  | Some (mkKeymap _ (Some fm)) =>
      match key with
      | String c EmptyString =>
          _ <- try (asetImpl (golisp.ArrayToList [fm; Int (Go.byteZ c); def]) env) ;;
          ret def
      | _ => ret def
      end
  | _ => ret def
  end.

Definition defineKeyImpl (args : Data) (env : nat) : M Data :=
  let m := golisp.Car args in
  let '(m, mSym) :=
    if golisp.SymbolP m then (m, Some m)
    else if golisp.PairP m && golisp.SymbolP (golisp.Car m) &&
            String.eqb (golisp.StringValue (golisp.Car m)) "quote" then
      let q := golisp.Cadr m in
      if golisp.SymbolP q then (q, Some q) else (m, None)
    else (m, None) in
  let k := golisp.Cadr args in
  let def := golisp.Caddr args in
  m <- (if golisp.SymbolP m then SymbolTable.ValueOf env m else ret m) ;;
  m <- match mSym with
       | Some s =>
           if golisp.NilP m then
             km <- newKeymap ;;
             SymbolTable.BindTo env s (keymapObject km) ;;;
             ret (keymapObject km)
           else ret m
       | None => ret m
       end ;;
  m <- (if negb (isKeymap m) then
          km <- newKeymap ;;
          match mSym with
          | Some s => SymbolTable.BindTo env s (keymapObject km) ;;; ret tt
          | None => ret tt
          end ;;;
          ret (keymapObject km)
        else ret m) ;;
  key <- keySpecString k (Some env) ;;
  if String.eqb key "" then
    raise (ErrText ("define-key unsupported key spec: " +:+ hostString k))
  else writeBinding (asKeymap m) key def env.

Definition keymapSetImpl (args : Data) (env : nat) : M Data :=
  defineKeyImpl args env.

End Keymaps.

(** ** Buffers, windows and match data *)

Section Buffers.
Context `{Host}.

Definition modifyRt (f : runtimeState -> runtimeState) : M unit :=
  modify (fun w => setRt (f (rt w)) w).

Definition setBuffers (b : gmap string nat) (r : runtimeState) : runtimeState :=
  mkRuntime b (windows r) (selectedWindowID r) (nextWindowID r) (warned r)
            (funcByName r) (matchData r) (matchString r) (matchInString r)
            (matchBuffer r) (errorParents r).

Definition setWindows (ws : gmap Z elWindow) (next : Z) (r : runtimeState)
  : runtimeState :=
  mkRuntime (buffers r) ws (selectedWindowID r) next (warned r)
            (funcByName r) (matchData r) (matchString r) (matchInString r)
            (matchBuffer r) (errorParents r).

Definition setSelectedWindowID (id : Z) (r : runtimeState) : runtimeState :=
  mkRuntime (buffers r) (windows r) id (nextWindowID r) (warned r)
            (funcByName r) (matchData r) (matchString r) (matchInString r)
            (matchBuffer r) (errorParents r).

Definition setMatch (md : list Z) (s : string) (inString : bool)
    (buf : option nat) (r : runtimeState) : runtimeState :=
  mkRuntime (buffers r) (windows r) (selectedWindowID r) (nextWindowID r)
            (warned r) (funcByName r) md s inString buf (errorParents r).

Definition setWarned (ws : gset string) (r : runtimeState) : runtimeState :=
  mkRuntime (buffers r) (windows r) (selectedWindowID r) (nextWindowID r)
            ws (funcByName r) (matchData r) (matchString r) (matchInString r)
            (matchBuffer r) (errorParents r).

Definition setErrorParents (ps : gmap string string) (r : runtimeState)
  : runtimeState :=
  mkRuntime (buffers r) (windows r) (selectedWindowID r) (nextWindowID r)
            (warned r) (funcByName r) (matchData r) (matchString r)
            (matchInString r) (matchBuffer r) ps.

Definition ensureBuffer (name : string) : M nat :=
  fun w =>
    match buffers (rt w) !! name with
    | Some b => (w, Val b)
    | None =>
        let addr := length (bufHeap w) in
        (setRt (setBuffers (<[name := addr]> (buffers (rt w))) (rt w))
               (setBufHeap (bufHeap w ++ [mkBuffer name Nil [] 0]) w),
         Val addr)
    end.

Definition newWindowForBuffer (buf : nat) : M elWindow :=
  fun w =>
    let id := nextWindowID (rt w) in
    let win := mkWindow id buf in
    (setRt (setWindows (<[id := win]> (windows (rt w))) (Go.wrap64 (id + 1)) (rt w)) w,
     Val win).

Definition ensureInitialWindowAndBuffer : M unit :=
  buf <- ensureBuffer "*scratch*" ;;
  win <- newWindowForBuffer buf ;;
  modifyRt (setSelectedWindowID (winId win)).

(** [selectedWindow]: Go leaves the order of [range rt.windows] open; the
    embedding takes the first entry of the table. *)
Definition selectedWindow : M elWindow :=
  r <- gets rt ;;
  match windows r !! selectedWindowID r with
  | Some w => ret w
  | None =>
      match map_to_list (windows r) with
      | (_, w) :: _ => modifyRt (setSelectedWindowID (winId w)) ;;; ret w
      | [] =>
          ensureInitialWindowAndBuffer ;;;
          r <- gets rt ;;
          match windows r !! selectedWindowID r with
          | Some w => ret w
          | None => panic "nil pointer dereference"
          end
      end
  end.

(** [currentBuffer]: the address of the selected window's buffer. *)
Definition currentBuffer : M nat :=
  w <- selectedWindow ;; ret (winBuffer w).

Definition setPoint (p : Z) (b : elBuffer) : elBuffer :=
  mkBuffer (bufName b) (localMap b) (text b) p.

Definition setText (t : list Z) (b : elBuffer) : elBuffer :=
  mkBuffer (bufName b) (localMap b) t (point b).

Definition updBuffer (buf : nat) (f : elBuffer -> elBuffer) : M unit :=
  modify (fun w => setBufHeap (alter f buf (bufHeap w)) w).

Definition readBuffer (buf : nat) : M (option elBuffer) :=
  gets (fun w => bufHeap w !! buf).

Definition clearMatchData : M unit :=
  modifyRt (setMatch [] "" false None).

(** [if buf.point < 0 { buf.point = 0 }; if buf.point > len(buf.text) { ... }] *)
Definition clampPoint (b : elBuffer) : elBuffer :=
  let b := if point b <? 0 then setPoint 0 b else b in
  if Go.lenL (text b) <? point b then setPoint (Go.lenL (text b)) b else b.

(** [rune(v)] for an [int64]: truncation to 32 bits. *)
Definition runeOfInt64 (v : Z) : Z := (v + 2 ^ 31) mod 2 ^ 32 - 2 ^ 31.

Definition insertPiece (v : Data) : string :=
  match v with
  | Int z => Go.stringOfRunes [runeOfInt64 z]
  | Str s | Sym s => s
  | _ => hostString v
  end.

Definition insertImpl (args : Data) : M Data :=
  buf <- currentBuffer ;;
  ob <- readBuffer buf ;;
  match ob with
  | None => ret Nil
  | Some _ =>
      updBuffer buf clampPoint ;;;
      let sb := foldr (fun v acc => insertPiece v +:+ acc) EmptyString (cells args) in
      let rs := Go.runes sb in
      match rs with
      | [] => ret Nil
      | _ =>
          updBuffer buf (fun b =>
            setPoint (point b + Go.lenL rs)
              (setText (Go.slice (text b) 0 (point b) ++ rs ++
                        Go.slice (text b) (point b) (Go.lenL (text b))) b)) ;;;
          ret Nil
      end
  end.

(** The optional integer limit of the search functions, as a 0-based
    offset clamped into the text. *)
Definition forwardLimit (args : Data) (b : elBuffer) : Z :=
  if golisp.NotNilP (golisp.Cdr args) && golisp.IntegerP (golisp.Cadr args) then
    Z.min (Z.max (Go.wrap64 (golisp.IntegerValue (golisp.Cadr args) - 1)) 0)
          (Go.lenL (text b))
  else Go.lenL (text b).

Definition searchForwardImpl (args : Data) : M Data :=
  buf <- currentBuffer ;;
  ob <- readBuffer buf ;;
  match ob with
  | None => ret Nil
  | Some b =>
      let needle := featureName (golisp.Car args) in
      if String.eqb needle "" then ret (Int (point b + 1))
      else
        let limit := forwardLimit args b in
        updBuffer buf clampPoint ;;;
        let b := clampPoint b in
        if limit <? point b then panic "slice bounds out of range"
        else
          let seg := Go.stringOfRunes (Go.slice (text b) (point b) limit) in
          let idx := Go.Index seg needle in
          if idx <? 0 then clearMatchData ;;; ret Nil
          else
            let start := point b + idx in
            let end_ := start + Go.lenL (Go.runes needle) in
            modifyRt (setMatch [start + 1; end_ + 1] "" false (Some buf)) ;;;
            updBuffer buf (setPoint (point b + idx + Go.lenL (Go.runes needle))) ;;;
            ret (Int (point b + idx + Go.lenL (Go.runes needle) + 1))
  end.

Definition gotoCharImpl (args : Data) : M Data :=
  buf <- currentBuffer ;;
  ob <- readBuffer buf ;;
  match ob with
  | None => ret (Int 1)
  | Some b =>
      let p := Z.min (Z.max (Go.wrap64 (golisp.IntegerValue (golisp.Car args) - 1)) 0)
                     (Go.lenL (text b)) in
      updBuffer buf (setPoint p) ;;;
      ret (Int (p + 1))
  end.

Definition deleteRegionImpl (args : Data) : M Data :=
  buf <- currentBuffer ;;
  ob <- readBuffer buf ;;
  match ob with
  | None => ret Nil
  | Some b =>
      let start := Go.wrap64 (golisp.IntegerValue (golisp.Car args) - 1) in
      let end_ := Go.wrap64 (golisp.IntegerValue (golisp.Cadr args) - 1) in
      let '(start, end_) := if end_ <? start then (end_, start) else (start, end_) in
      let start := if start <? 0 then 0 else start in
      let end_ := if end_ <? 0 then 0 else end_ in
      let n := Go.lenL (text b) in
      let start := if n <? start then n else start in
      let end_ := if n <? end_ then n else end_ in
      let b :=
        if start <? end_ then
          let b' := setText (Go.slice (text b) 0 start ++ Go.slice (text b) end_ n) b in
          if end_ <? point b then setPoint (point b - (end_ - start)) b'
          else if start <? point b then setPoint start b'
          else b'
        else b in
      updBuffer buf (fun _ => clampPoint b) ;;;
      ret Nil
  end.

End Buffers.

Section Replace.
Context `{Host}.

Definition deleteCharImpl (args : Data) : M Data :=
  buf <- currentBuffer ;;
  ob <- readBuffer buf ;;
  match ob with
  | None => ret Nil
  | Some b =>
      let n := if golisp.NotNilP args && golisp.IntegerP (golisp.Car args)
               then golisp.IntegerValue (golisp.Car args) else 1 in
      let len := Go.lenL (text b) in
      if n =? 0 then ret Nil
      else if 0 <? n then
        let start := point b in
        let end_ := Z.min (Go.wrap64 (start + n)) len in
        let start := if start <? 0 then 0 else start in
        (if start <? end_ then
           updBuffer buf (setText (Go.slice (text b) 0 start ++ Go.slice (text b) end_ len))
         else ret tt) ;;;
        ret Nil
      else
        let n := Go.wrap64 (- n) in
        let start := Go.wrap64 (point b - n) in
        let end_ := point b in
        let start := if start <? 0 then 0 else start in
        let end_ := if len <? end_ then len else end_ in
        (if start <? end_ then
           updBuffer buf (fun b =>
             setPoint start
               (setText (Go.slice (text b) 0 start ++ Go.slice (text b) end_ len) b))
         else ret tt) ;;;
        ret Nil
  end.

Definition backslash : ascii := Go.byteOfZ 92.

Definition nthString (l : list string) (i : Z) : string :=
  default EmptyString (l !! Z.to_nat i).

Fixpoint expandReplacementTemplate (template : string) (matched : list string)
  : string :=
  match template with
  | EmptyString => EmptyString
  | String ch rest =>
      if negb (Ascii.eqb ch backslash) then
        String ch (expandReplacementTemplate rest matched)
      else
        match rest with
        | EmptyString => String ch EmptyString
        | String c rest' =>
            let piece :=
              if Ascii.eqb c "&" then nthString matched 0
              else if Ascii.eqb c backslash then String backslash EmptyString
              else if Go.inRange 48 57 c then
                let idx := Go.byteZ c - 48 in
                if idx <? Go.lenL matched then nthString matched idx else EmptyString
              else String c EmptyString in
            piece +:+ expandReplacementTemplate rest' matched
        end
  end.

(** The capture groups above group 0 as text, for the loop
    [for i := 2; i+1 < len(matchData); i += 2]; [base] is 1 for buffer
    positions and 0 for string offsets. *)
Fixpoint matchedGroups (base : Z) (md : list Z) (rs : list Z) : list string :=
  match md with
  | a :: b :: md' =>
      (if (a <? 0) || (b <? 0) then EmptyString
       else
         let a := a - base in
         let b := b - base in
         if (a <? 0) || (b <? 0) || (Go.lenL rs <? a) || (Go.lenL rs <? b) || (b <? a)
         then EmptyString
         else Go.stringOfRunes (Go.slice rs a b))
      :: matchedGroups base md' rs
  | _ => []
  end.

Definition nthZ (l : list Z) (i : Z) : Z := default 0 (l !! Z.to_nat i).

(** The [subexp] argument of [replace-match]: the fifth argument when it is
    an integer, 0 otherwise. *)
Definition requestedSubexp (args : Data) : Z :=
  let rest4 := golisp.Cdr (golisp.Cdr (golisp.Cdr (golisp.Cdr args))) in
  if golisp.NotNilP rest4 && golisp.IntegerP (golisp.Car rest4)
  then golisp.IntegerValue (golisp.Car rest4) else 0.

Definition replaceMatchImpl (args : Data) : M Data :=
  let repl := featureName (golisp.Car args) in
  let literal := if golisp.NotNilP (golisp.Cddr args)
                 then golisp.BooleanValue (golisp.Caddr args) else false in
  let subexp := requestedSubexp args in
  md <- gets (fun w => matchData (rt w)) ;;
  if Go.lenL md <? 2 then ret (Str repl)
  else
    let pairIdx := Go.wrap64 (subexp * 2) in
    if Go.lenL md <=? pairIdx + 1 then ret (Str repl)
    else if pairIdx <? 0 then panic "index out of range"
    else
      let start := nthZ md pairIdx in
      let end_ := nthZ md (pairIdx + 1) in
      if (start <? 0) || (end_ <? 0) then ret (Str repl)
      else if (4 <=? golisp.Length args) && golisp.StringP (golisp.Car (golisp.Cdddr args))
      then
        let rs := Go.runes (golisp.StringValue (golisp.Car (golisp.Cdddr args))) in
        let end_ := if Go.lenL rs <? end_ then Go.lenL rs else end_ in
        let '(start, end_) := if end_ <? start then (end_, start) else (start, end_) in
        if Go.lenL rs <? end_ then panic "slice bounds out of range"
        else
          let matched := Go.stringOfRunes (Go.slice rs start end_)
                         :: matchedGroups 0 (drop 2 md) rs in
          let replacement :=
            if literal then repl else expandReplacementTemplate repl matched in
          ret (Str (Go.stringOfRunes (Go.slice rs 0 start) +:+ replacement +:+
                    Go.stringOfRunes (Go.slice rs end_ (Go.lenL rs))))
      else
        cur <- currentBuffer ;;
        mb <- gets (fun w => matchBuffer (rt w)) ;;
        let buf := match mb with Some p => p | None => cur end in
        ob <- readBuffer buf ;;
        match ob with
        | None => ret (Str repl)
        | Some b =>
            let start := start - 1 in
            let end_ := end_ - 1 in
            let start := if start <? 0 then 0 else start in
            let end_ := if Go.lenL (text b) <? end_ then Go.lenL (text b) else end_ in
            let '(start, end_) := if end_ <? start then (end_, start) else (start, end_) in
            if Go.lenL (text b) <? end_ then panic "slice bounds out of range"
            else
              let matched := Go.stringOfRunes (Go.slice (text b) start end_)
                             :: matchedGroups 1 (drop 2 md) (text b) in
              let replacement :=
                if literal then repl else expandReplacementTemplate repl matched in
              let replRunes := Go.runes replacement in
              updBuffer buf (fun b =>
                setPoint (start + Go.lenL replRunes)
                  (setText (Go.slice (text b) 0 start ++ replRunes ++
                            Go.slice (text b) end_ (Go.lenL (text b))) b)) ;;;
              clearMatchData ;;;
              ret (Str replacement)
        end.

End Replace.

(** ** Special forms *)

Record letBinding := mkLetBinding {
  lbName : Data;
  lbValue : Data
}.

Section Forms.
Context `{Host}.

Definition newChildFrame (env : nat) (name : string) : M nat :=
  local <- SymbolTable.NewSymbolTableFrameBelow env name ;;
  SymbolTable.setPrevious local env ;;;
  ret local.

(** The main loop of [parseElispLetBindings]; [evalEnv] and [local] are the
    frames the Go code picks from its [sequential] flag. *)
Fixpoint parseLetLoop (forms : list Data) (evalEnv local : nat) (sequential : bool)
    (acc : list letBinding) : M (list letBinding) :=
  match forms with
  | [] => ret acc
  | b :: forms' =>
      if golisp.SymbolP b then
        if sequential then
          SymbolTable.BindLocallyTo local b Nil ;;;
          parseLetLoop forms' evalEnv local sequential acc
        else parseLetLoop forms' evalEnv local sequential (acc ++ [mkLetBinding b Nil])
      else if golisp.PairP b then
        let name := golisp.Car b in
        if negb (golisp.SymbolP name) then
          raise (ErrText ("let binding name must be a symbol, got " +:+ hostString name))
        else
          let rest := golisp.Cdr b in
          value <- (if golisp.NotNilP rest then Eval (golisp.Car rest) evalEnv
                    else ret Nil) ;;
          if sequential then
            SymbolTable.BindLocallyTo local name value ;;;
            parseLetLoop forms' evalEnv local sequential acc
          else
            parseLetLoop forms' evalEnv local sequential (acc ++ [mkLetBinding name value])
      else raise (ErrText ("invalid let binding form: " +:+ hostString b))
  end.

Fixpoint readBackBindings (forms : list Data) (local : nat) : M (list letBinding) :=
  match forms with
  | [] => ret []
  | b :: forms' =>
      let name := if golisp.PairP b then golisp.Car b else b in
      v <- SymbolTable.ValueOf local name ;;
      rest <- readBackBindings forms' local ;;
      ret (mkLetBinding name v :: rest)
  end.

Definition parseElispLetBindings (forms : Data) (env : nat) (sequential : bool)
  : M (list letBinding) :=
  if negb (golisp.ListP forms) then raise (ErrText "let expects a list of bindings")
  else
    local <- (if sequential then newChildFrame env "let*" else ret env) ;;
    bs <- parseLetLoop (cells forms) local local sequential [] ;;
    if sequential then readBackBindings (cells forms) local else ret bs.

Fixpoint bindAll (local : nat) (bs : list letBinding) : M unit :=
  match bs with
  | [] => ret tt
  | b :: bs' =>
      SymbolTable.BindLocallyTo local (lbName b) (lbValue b) ;;;
      bindAll local bs'
  end.

Definition letImpl (args : Data) (env : nat) : M Data :=
  let bindingForms := golisp.Car args in
  let body := golisp.Cdr args in
  bs <- parseElispLetBindings bindingForms env false ;;
  local <- newChildFrame env "let" ;;
  bindAll local bs ;;;
  evalLetBody body local.

Fixpoint letStarLoop (forms : list Data) (local : nat) : M unit :=
  match forms with
  | [] => ret tt
  | b :: forms' =>
      if golisp.SymbolP b then
        SymbolTable.BindLocallyTo local b Nil ;;;
        letStarLoop forms' local
      else if golisp.PairP b then
        let name := golisp.Car b in
        if negb (golisp.SymbolP name) then
          raise (ErrText ("let* binding name must be a symbol, got " +:+ hostString name))
        else
          value <- (if golisp.NotNilP (golisp.Cdr b) then Eval (golisp.Cadr b) local
                    else ret Nil) ;;
          SymbolTable.BindLocallyTo local name value ;;;
          letStarLoop forms' local
      else raise (ErrText ("invalid let* binding form: " +:+ hostString b))
  end.

Definition letStarImpl (args : Data) (env : nat) : M Data :=
  let bindingForms := golisp.Car args in
  let body := golisp.Cdr args in
  if negb (golisp.ListP bindingForms) then
    raise (ErrText "let* expects a list of bindings")
  else
    local <- newChildFrame env "let*" ;;
    letStarLoop (cells bindingForms) local ;;;
    evalLetBody body local.

(** *** Conditions *)

Definition throwImpl (args : Data) (_ : nat) : M Data :=
  raise (ErrThrow (featureName (golisp.Car args)) (golisp.Cadr args)).

Definition signalImpl (args : Data) (_ : nat) : M Data :=
  let cond := golisp.Car args in
  if negb (golisp.SymbolP cond) then
    raise (ErrText ("signal expects condition symbol, got " +:+ hostString cond))
  else raise (ErrSignal (golisp.StringValue cond) (golisp.Cadr args)).

Definition defineErrorImpl (args : Data) (env : nat) : M Data :=
  let name := golisp.Car args in
  if negb (golisp.SymbolP name) then
    raise (ErrText ("define-error expects symbol, got " +:+ hostString name))
  else
    let parent :=
      if golisp.NotNilP (golisp.Cddr args) && golisp.SymbolP (golisp.Caddr args)
      then golisp.StringValue (golisp.Caddr args) else "error"%string in
    modifyRt (fun r =>
      setErrorParents (<[golisp.StringValue name := parent]> (errorParents r)) r) ;;;
    _ <- try (SymbolTable.BindTo env name name) ;;
    ret name.

(** The parent-chain walk of [conditionNameMatches]:
    [for c := errCond; c != ""; c = parents[c]] with its [seen] set.  Every
    turn that does not leave the loop adds a new name to [seen]. *)
Fixpoint parentWalk (fuel : nat) (parents : gmap string string)
    (seen : gset string) (c spec : string) : bool :=
  match fuel with
  | O => false
  | S fuel' =>
      if String.eqb c "" then false
      else if bool_decide (c ∈ seen) then false
      else if String.eqb c spec then true
      else if String.eqb c "error" then false
      else parentWalk fuel' parents ({[c]} ∪ seen)
                      (default EmptyString (parents !! c)) spec
  end.

Definition conditionNameMatchesIn (parents : gmap string string)
    (spec errCond : string) : bool :=
  if String.eqb spec "t" then true
  else if parentWalk (S (S (size parents))) parents ∅ errCond spec then true
  else String.eqb spec "error" && String.eqb errCond "error".

Definition conditionCaseMatchesIn (parents : gmap string string)
    (spec : Data) (errCond : string) : bool :=
  if golisp.SymbolP spec then
    conditionNameMatchesIn parents (golisp.StringValue spec) errCond
  else if golisp.ListP spec then
    existsb (fun s => golisp.SymbolP s &&
                      conditionNameMatchesIn parents (golisp.StringValue s) errCond)
            (cells spec)
  else false.

Definition conditionNameMatches (spec errCond : string) : M bool :=
  gets (fun w => conditionNameMatchesIn (errorParents (rt w)) spec errCond).

Definition conditionCaseMatches (spec : Data) (errCond : string) : M bool :=
  gets (fun w => conditionCaseMatchesIn (errorParents (rt w)) spec errCond).

Definition conditionCaseErrorObject (errCond : string) (err : goerror) : Data :=
  match err with
  | ErrSignal _ data =>
      if golisp.NotNilP data then golisp.ArrayToList [Sym errCond; data]
      else golisp.ArrayToList [Sym errCond; Str (errorMessage err)]
  | _ => golisp.ArrayToList [Sym errCond; Str (errorMessage err)]
  end.

(** The condition name under which a failure is offered to the handlers. *)
Definition conditionOf (err : goerror) : string :=
  match err with
  | ErrThrow _ _ => "throw"
  | ErrSignal c _ => if String.eqb c "" then "error" else c
  | ErrText _ => "error"
  end.

Fixpoint handlerLoop (handlers : list Data) (varName : Data) (env : nat)
    (errCond : string) (errObj : Data) (err : goerror) : M Data :=
  match handlers with
  | [] => raise err
  | clause :: handlers' =>
      if negb (golisp.PairP clause) then
        handlerLoop handlers' varName env errCond errObj err
      else
        ok <- conditionCaseMatches (golisp.Car clause) errCond ;;
        if negb ok then handlerLoop handlers' varName env errCond errObj err
        else
          local <- (if golisp.SymbolP varName &&
                       negb (String.eqb (golisp.StringValue varName) "nil")
                    then
                      local <- newChildFrame env "condition-case" ;;
                      SymbolTable.BindLocallyTo local varName errObj ;;;
                      ret local
                    else ret env) ;;
          evalLetBody (golisp.Cdr clause) local
  end.

Definition conditionCaseImpl (args : Data) (env : nat) : M Data :=
  let varName := golisp.Car args in
  let body := golisp.Cadr args in
  r <- try (Eval body env) ;;
  match r with
  | inr v => ret v
  | inl err =>
      let handlers := golisp.Cddr args in
      let errCond := conditionOf err in
      let errObj := conditionCaseErrorObject errCond err in
      handlerLoop (cells handlers) varName env errCond errObj err
  end.

(** *** [unwind-protect] *)

(** [for c := cleanup; ...]: every form is evaluated, the first error kept. *)
Fixpoint cleanupLoop (forms : list Data) (env : nat) (cleanupErr : option goerror)
  : M (option goerror) :=
  match forms with
  | [] => ret cleanupErr
  | c :: forms' =>
      r <- try (Eval c env) ;;
      cleanupLoop forms' env
        (match r, cleanupErr with
         | inl err, None => Some err
         | _, _ => cleanupErr
         end)
  end.

Definition unwindProtectImpl (args : Data) (env : nat) : M Data :=
  let protected := golisp.Car args in
  let cleanup := golisp.Cdr args in
  run <- try (Eval protected env) ;;
  cleanupErr <- cleanupLoop (cells cleanup) env None ;;
  match run with
  | inl runErr => raise runErr
  | inr result =>
      match cleanupErr with
      | Some e => raise e
      | None => ret result
      end
  end.

End Forms.

(** *** [cl-loop] *)

(** The clause variables of [clLoopImpl]; a nil pointer is [None]. *)
Record loopClauses := mkClauses {
  mode : string;
  bodyStart : option nat;
  whileExpr : option Data;
  forAssigns : list (Data * Data);
  repeatExpr : option Data;
  numericVar : option Data;
  numericStart : option Data;
  numericEnd : option Data;
  numericStep : option Data;
  numericCmp : string;
  seqVar : option Data;
  seqExpr : option Data;
  seqAcross : bool
}.

Definition initialClauses : loopClauses :=
  mkClauses "do" None None [] None None None None None "none" None None false.

(** The local variables of the iteration. *)
Record loopState := mkLoopState {
  iter : Z;
  nVal : Z;
  sum : Z;
  collected : list Data;
  result : Data
}.

Definition maxIters : Z := 100000.

Section ClLoop.
Context `{Host}.

Definition bindOrSetLocal (env : nat) (name value : Data) : M unit :=
  r <- try (SymbolTable.SetTo env name value) ;;
  match r with
  | inr _ => ret tt
  | inl _ => SymbolTable.BindLocallyTo env name value ;;; ret tt
  end.

Definition warnOnce (key : string) : M unit :=
  modifyRt (fun r => if bool_decide (key ∈ warned r) then r
                     else setWarned ({[key]} ∪ warned r) r).

Definition tokIs (toks : list Data) (i : nat) (s : string) : bool :=
  match toks !! i with
  | Some t => String.eqb (featureName t) s
  | None => false
  end.

Definition tokAt (toks : list Data) (i : nat) : Data := default Nil (toks !! i).

(** The clause scanner [for i := 0; i < len(toks); { ... }].  [inl d] is an
    early [return d, nil]; every turn moves [i] forward, so [length toks]
    turns are enough. *)
Fixpoint scanClauses (fuel : nat) (toks : list Data) (local : nat) (i : nat)
    (cl : loopClauses) : M (Data + loopClauses) :=
  let n := length toks in
  if negb (i <? n)%nat then ret (inr cl)
  else
    match fuel with
    | O => ret (inr cl)
    | S fuel' =>
        let tok := featureName (tokAt toks i) in
        if String.eqb tok "do" || String.eqb tok "sum" || String.eqb tok "collect" then
          ret (inr (mkClauses tok (Some (S i)) (whileExpr cl) (forAssigns cl)
                      (repeatExpr cl) (numericVar cl) (numericStart cl)
                      (numericEnd cl) (numericStep cl) (numericCmp cl)
                      (seqVar cl) (seqExpr cl) (seqAcross cl)))
        else if String.eqb tok "with" then
          if (n <=? i + 1)%nat || negb (golisp.SymbolP (tokAt toks (i + 1))) then
            ret (inl Nil)
          else
            let name := tokAt toks (i + 1) in
            let next := (i + 2)%nat in
            let next := if (next <? n)%nat && tokIs toks next "=" then S next else next in
            if (next <? n)%nat then
              v <- Eval (tokAt toks next) local ;;
              bindOrSetLocal local name v ;;;
              scanClauses fuel' toks local (S next) cl
            else
              bindOrSetLocal local name Nil ;;;
              scanClauses fuel' toks local next cl
        else if String.eqb tok "while" then
          if (n <=? i + 1)%nat then ret (inl Nil)
          else scanClauses fuel' toks local (i + 2)
                 (mkClauses (mode cl) (bodyStart cl) (Some (tokAt toks (i + 1)))
                    (forAssigns cl) (repeatExpr cl) (numericVar cl) (numericStart cl)
                    (numericEnd cl) (numericStep cl) (numericCmp cl)
                    (seqVar cl) (seqExpr cl) (seqAcross cl))
        else if String.eqb tok "repeat" then
          if (n <=? i + 1)%nat then ret (inl Nil)
          else scanClauses fuel' toks local (i + 2)
                 (mkClauses (mode cl) (bodyStart cl) (whileExpr cl)
                    (forAssigns cl) (Some (tokAt toks (i + 1))) (numericVar cl)
                    (numericStart cl) (numericEnd cl) (numericStep cl) (numericCmp cl)
                    (seqVar cl) (seqExpr cl) (seqAcross cl))
        else if String.eqb tok "for" then
          if (n <=? i + 2)%nat || negb (golisp.SymbolP (tokAt toks (i + 1))) then
            ret (inl Nil)
          else
            let name := tokAt toks (i + 1) in
            let op := featureName (tokAt toks (i + 2)) in
            if String.eqb op "=" then
              if (n <=? i + 3)%nat then ret (inl Nil)
              else scanClauses fuel' toks local (i + 4)
                     (mkClauses (mode cl) (bodyStart cl) (whileExpr cl)
                        (forAssigns cl ++ [(name, tokAt toks (i + 3))])
                        (repeatExpr cl) (numericVar cl) (numericStart cl)
                        (numericEnd cl) (numericStep cl) (numericCmp cl)
                        (seqVar cl) (seqExpr cl) (seqAcross cl))
            else if String.eqb op "in" || String.eqb op "across" then
              if (n <=? i + 3)%nat then ret (inl Nil)
              else scanClauses fuel' toks local (i + 4)
                     (mkClauses (mode cl) (bodyStart cl) (whileExpr cl)
                        (forAssigns cl) (repeatExpr cl) (numericVar cl)
                        (numericStart cl) (numericEnd cl) (numericStep cl)
                        (numericCmp cl) (Some name) (Some (tokAt toks (i + 3)))
                        (String.eqb op "across"))
            else if String.eqb op "below" then
              if (n <=? i + 3)%nat then ret (inl Nil)
              else scanClauses fuel' toks local (i + 4)
                     (mkClauses (mode cl) (bodyStart cl) (whileExpr cl)
                        (forAssigns cl) (repeatExpr cl) (Some name) (Some (Int 0))
                        (Some (tokAt toks (i + 3))) (Some (Int 1)) "below"
                        (seqVar cl) (seqExpr cl) (seqAcross cl))
            else if String.eqb op "from" || String.eqb op "upfrom" then
              if (n <=? i + 3)%nat then ret (inl Nil)
              else
                let j := (i + 4)%nat in
                let by_ := String.eqb op "upfrom" && (j <? n)%nat &&
                           tokIs toks j "by" && (j + 1 <? n)%nat in
                let step := if by_ then tokAt toks (j + 1) else Int 1 in
                let j := if by_ then (j + 2)%nat else j in
                if (n <=? j + 1)%nat then ret (inl Nil)
                else scanClauses fuel' toks local (j + 2)
                       (mkClauses (mode cl) (bodyStart cl) (whileExpr cl)
                          (forAssigns cl) (repeatExpr cl) (Some name)
                          (Some (tokAt toks (i + 3))) (Some (tokAt toks (j + 1)))
                          (Some step) (featureName (tokAt toks j))
                          (seqVar cl) (seqExpr cl) (seqAcross cl))
            else scanClauses fuel' toks local (i + 3) cl
        else scanClauses fuel' toks local (S i) cl
    end.

(** [seqItems]: [None] is the nil slice, for which the loop has no
    sequence controller.  Appending the items of an empty vector or the
    runes of an empty string to the nil slice leaves it nil. *)
Definition sequenceItems (seq : Data) (across : bool) (w : World)
  : option (list Data) :=
  if golisp.ListP seq then Some (golisp.ToArray seq)
  else if isElVector seq then
    match vectorItems seq w with [] => None | items => Some items end
  else if across && golisp.StringP seq then
    match Go.runes (golisp.StringValue seq) with
    | [] => None
    | rs => Some (map Int rs)
    end
  else Some [].

Definition numericOk (cmp : string) (nVal nEnd : Z) : bool :=
  if String.eqb cmp "to" then nVal <=? nEnd
  else if String.eqb cmp "downto" then nEnd <=? nVal
  else if String.eqb cmp "below" then nVal <? nEnd
  else true.

Fixpoint runForAssigns (assigns : list (Data * Data)) (local : nat) : M unit :=
  match assigns with
  | [] => ret tt
  | (name, expr) :: rest =>
      v <- Eval expr local ;;
      bindOrSetLocal local name v ;;;
      runForAssigns rest local
  end.

Fixpoint runDoBody (body : list Data) (local : nat) (result : Data) : M Data :=
  match body with
  | [] => ret result
  | form :: body' => v <- Eval form local ;; runDoBody body' local v
  end.

(** The action of one turn, by [mode]. *)
Definition loopBody (cl : loopClauses) (body : list Data) (local : nat)
    (st : loopState) : M loopState :=
  if String.eqb (mode cl) "sum" then
    match body with
    | [] => ret st
    | form :: _ =>
        v <- Eval form local ;;
        ret (mkLoopState (iter st) (nVal st)
               (if golisp.IntegerP v then Go.wrap64 (sum st + golisp.IntegerValue v)
                else sum st)
               (collected st) (result st))
    end
  else if String.eqb (mode cl) "collect" then
    match body with
    | [] => ret st
    | form :: _ =>
        v <- Eval form local ;;
        ret (mkLoopState (iter st) (nVal st) (sum st) (collected st ++ [v]) (result st))
    end
  else
    r <- runDoBody body local (result st) ;;
    ret (mkLoopState (iter st) (nVal st) (sum st) (collected st) r).

(** The termination controllers at the head of a turn, in the order of the
    Go code; [false] is a [break]. *)
Definition seqController (cl : loopClauses) (local : nat)
    (seqItems : option (list Data)) (st : loopState) : M bool :=
  match seqItems with
  | Some items =>
      if Go.lenL items <=? iter st then ret false
      else
        match seqVar cl with
        | Some v => bindOrSetLocal local v (tokAt items (Z.to_nat (iter st)))
        | None => ret tt
        end ;;;
        ret true
  | None => ret true
  end.

Definition numericController (cl : loopClauses) (local : nat) (nEnd : Z)
    (st : loopState) : M bool :=
  match numericVar cl with
  | Some v =>
      if negb (numericOk (numericCmp cl) (nVal st) nEnd) then ret false
      else bindOrSetLocal local v (Int (nVal st)) ;;; ret true
  | None => ret true
  end.

Definition whileController (cl : loopClauses) (local : nat) : M bool :=
  match whileExpr cl with
  | Some e => cond <- Eval e local ;; ret (golisp.BooleanValue cond)
  | None => ret true
  end.

Definition controllers (cl : loopClauses) (local : nat) (seqItems : option (list Data))
    (repeatCount nEnd : Z) (st : loopState) : M bool :=
  if maxIters <=? iter st then ret false
  else if (0 <=? repeatCount) && (repeatCount <=? iter st) then ret false
  else
    go <- seqController cl local seqItems st ;;
    if negb go then ret false
    else
      go <- numericController cl local nEnd st ;;
      if negb go then ret false
      else
        runForAssigns (forAssigns cl) local ;;;
        whileController cl local.

(** The [for { ... }] of [clLoopImpl]; [None] when the fuel runs out before
    the loop leaves. *)
Fixpoint iterate (fuel : nat) (cl : loopClauses) (body : list Data) (local : nat)
    (seqItems : option (list Data)) (repeatCount nEnd nStep : Z) (st : loopState)
  : M (option loopState) :=
  match fuel with
  | O => ret None
  | S fuel' =>
      go <- controllers cl local seqItems repeatCount nEnd st ;;
      if negb go then ret (Some st)
      else
        st <- loopBody cl body local st ;;
        iterate fuel' cl body local seqItems repeatCount nEnd nStep
          (mkLoopState (iter st + 1)
             (match numericVar cl with
              | Some _ => Go.wrap64 (nVal st + nStep)
              | None => nVal st
              end)
             (sum st) (collected st) (result st))
  end.

Definition loopValue (cl : loopClauses) (st : loopState) : Data :=
  if String.eqb (mode cl) "sum" then Int (sum st)
  else if String.eqb (mode cl) "collect" then golisp.ArrayToList (collected st)
  else result st.

(** Everything of [clLoopImpl] after the clause scan and before the loop:
    the sequence, the numeric range and the repeat count.  [inl d] is an
    early [return d, nil]. *)
Definition loopSetup (cl : loopClauses) (local : nat)
  : M (Data + (option (list Data) * Z * Z * Z * Z)) :=
  seqItems <- match seqExpr cl with
              | Some e =>
                  seq <- Eval e local ;;
                  gets (sequenceItems seq (seqAcross cl))
              | None => ret None
              end ;;
  num <- match numericVar cl, numericEnd cl with
         | Some _, Some endE =>
             st <- match numericStart cl with
                   | Some e => Eval e local
                   | None => ret (Int 0)
                   end ;;
             en <- Eval endE local ;;
             sp <- match numericStep cl with
                   | Some e => Eval e local
                   | None => ret (Int 1)
                   end ;;
             if negb (golisp.IntegerP st) || negb (golisp.IntegerP en) ||
                negb (golisp.IntegerP sp)
             then ret (inl Nil)
             else
               let nStep := golisp.IntegerValue sp in
               ret (inr (golisp.IntegerValue st, golisp.IntegerValue en,
                         if nStep =? 0 then 1 else nStep))
         | _, _ => ret (inr (0, 0, 0))
         end ;;
  match num with
  | inl d => ret (inl d)
  | inr (nStart, nEnd, nStep) =>
      match repeatExpr cl with
      | Some e =>
          v <- Eval e local ;;
          if negb (golisp.IntegerP v) then ret (inl Nil)
          else ret (inr (seqItems, Z.max (golisp.IntegerValue v) 0, nStart, nEnd, nStep))
      | None => ret (inr (seqItems, -1, nStart, nEnd, nStep))
      end
  end.

(** [clLoopImpl] with the fuel of its loop explicit; [Val None] is the loop
    still running when the fuel is spent. *)
Definition clLoopFuel (fuel : nat) (args : Data) (env : nat) : M (option Data) :=
  let toks := golisp.ToArray args in
  match toks with
  | [] => ret (Some Nil)
  | _ =>
      local <- newChildFrame env "cl-loop" ;;
      scan <- scanClauses (length toks) toks local 0 initialClauses ;;
      match scan with
      | inl d => ret (Some d)
      | inr cl =>
          match bodyStart cl with
          | None => warnOnce "cl-loop-unsupported" ;;; ret (Some Nil)
          | Some start =>
              let body := drop start toks in
              setup <- loopSetup cl local ;;
              match setup with
              | inl d => ret (Some d)
              | inr (seqItems, repeatCount, nStart, nEnd, nStep) =>
                  final <- iterate fuel cl body local seqItems repeatCount nEnd nStep
                             (mkLoopState 0 nStart 0 [] Nil) ;;
                  ret (option_map (loopValue cl) final)
              end
          end
      end
  end.

(** One more turn than [maxIters] always reaches a [break]. *)
Definition clLoopImpl (args : Data) (env : nat) : M Data :=
  r <- clLoopFuel (S (Z.to_nat maxIters)) args env ;;
  match r with
  | Some d => ret d
  | None => panic "cl-loop did not stop"
  end.

End ClLoop.

(** ** The preprocessor *)

Module Preprocessor.




Definition quote : ascii := Go.byteOfZ 34.

















End Preprocessor.

(** ** [setq] *)

Section Setq.
Context `{Host}.

Fixpoint setqLoop (c : Data) (env : nat) (result : Data) : M Data :=
  match c with
  | Nil => ret result
  | Cons sym c1 =>
      if negb (golisp.SymbolP sym) then
        raise (ErrText ("setq target must be a symbol, got " +:+ hostString sym))
      else
        value <- Eval (golisp.Car c1) env ;;
        r <- try (SymbolTable.SetTo env sym value) ;;
        match r with
        | inr _ => ret tt
        | inl _ => SymbolTable.BindTo env sym value ;;; ret tt
        end ;;;
        match c1 with
        | Cons _ c2 => setqLoop c2 env value
        | _ => ret value
        end
  | _ => raise (ErrText ("setq target must be a symbol, got " +:+ hostString Nil))
  end.

Definition setqImpl (args : Data) (env : nat) : M Data :=
  if negb (golisp.Length args mod 2 =? 0) then
    raise (ErrText "setq expects an even number of forms")
  else setqLoop args env Nil.

End Setq.

(** ** A small host

    The theorems below hold for every host.  To run closed programs the
    development also provides one: an evaluator for literals, variables,
    [quote], [progn], [+] and [<], which hands every other form to the
    special forms and primitives of this runtime the way
    [installElispCompat] registers them. *)

Module MiniHost.

Fixpoint printData (d : Data) : string :=
  match d with
  | Nil => "()"
  | Int z => Go.Itoa z
  | Bool true => "#t"
  | Bool false => "#f"
  | Str s => String Preprocessor.quote (s +:+ String Preprocessor.quote EmptyString)
  | Sym s => s
  | Cons a b => "(" +:+ printData a +:+ " . " +:+ printData b +:+ ")"
  | Obj ty _ => "<" +:+ ty +:+ ">"
  | Fn _ => "<function>"
  end.

Fixpoint evalArgs (ev : Data -> nat -> M Data) (l : list Data) (env : nat)
  : M (list Data) :=
  match l with
  | [] => ret []
  | a :: l' => v <- ev a env ;; vs <- evalArgs ev l' env ;; ret (v :: vs)
  end.

Definition addInts (vs : list Data) : Z :=
  foldr (fun v acc => Go.wrap64 (golisp.IntegerValue v + acc)) 0 vs.

Definition lessThan (vs : list Data) : Data :=
  match vs with
  | [Int a; Int b] => Bool (a <? b)
  | _ => Bool false
  end.

Definition specialForms : list string :=
  ["quote"; "progn"; "setq"; "let"; "let*"; "condition-case"; "unwind-protect";
   "cl-loop"; "defvar-keymap"]%string.

Fixpoint eval (fuel : nat) (d : Data) (env : nat) : M Data :=
  match fuel with
  | O => raise (ErrText "evaluation too deep")
  | S fuel' =>
      let host : Host := {| Eval := eval fuel'; hostString := printData |} in
      match d with
      | Sym _ => SymbolTable.ValueOf env d
      | Cons (Sym f) args =>
          if bool_decide (f ∈ specialForms) then
            if String.eqb f "quote" then ret (golisp.Car args)
            else if String.eqb f "progn" then evalLetBody args env
            else if String.eqb f "setq" then setqImpl args env
            else if String.eqb f "let" then letImpl args env
            else if String.eqb f "let*" then letStarImpl args env
            else if String.eqb f "condition-case" then conditionCaseImpl args env
            else if String.eqb f "unwind-protect" then unwindProtectImpl args env
            else if String.eqb f "cl-loop" then
              if golisp.Length args <? 8 then
                raise (ErrText "cl-loop expected at least 8 parameters")
              else clLoopImpl args env
            else defvarKeymapImpl args env
          else
            vs <- evalArgs (eval fuel') (cells args) env ;;
            let vals := golisp.ArrayToList vs in
            if String.eqb f "+" then ret (Int (addInts vs))
            else if String.eqb f "<" then ret (lessThan vs)
            else if String.eqb f "signal" then signalImpl vals env
            else if String.eqb f "throw" then throwImpl vals env
            else if String.eqb f "define-error" then defineErrorImpl vals env
            else if String.eqb f "define-key" then defineKeyImpl vals env
            else if String.eqb f "keymap-set" then keymapSetImpl vals env
            else if String.eqb f "insert" then insertImpl vals
            else if String.eqb f "goto-char" then gotoCharImpl vals
            else if String.eqb f "search-forward" then searchForwardImpl vals
            else if String.eqb f "replace-match" then replaceMatchImpl vals
            else if String.eqb f "delete-region" then deleteRegionImpl vals
            else if String.eqb f "delete-char" then deleteCharImpl vals
            else raise (ErrText ("function or macro expected for " +:+ f +:+ "."))
      | _ => ret d
      end
  end.

#[export] Instance host : Host := {| Eval := eval 64; hostString := printData |}.

(** The state after [ensureInitialWindowAndBuffer] and
    [installElispCompat]: the global frame binds [t], the scratch buffer is
    shown in window 1, and [error] and [quit] are the known conditions. *)
Definition initialWorld : World :=
  mkWorld [mkFrame "global" None None {[ "t"%string := Bool true ]}]
          [mkBuffer "*scratch*" Nil [] 0] [] []
          (mkRuntime {[ "*scratch*"%string := 0%nat ]} {[ 1 := mkWindow 1 0 ]} 1 2 ∅ ∅
                     [] "" false None
                     {[ "error"%string := ""%string; "quit"%string := "error"%string ]}).

(** The initial state with the given text in the scratch buffer, point at
    the beginning. *)
Definition worldWithText (rs : list Z) : World :=
  setBufHeap [mkBuffer "*scratch*" Nil rs 0] initialWorld.

Definition list_ (l : list Data) : Data := golisp.ArrayToList l.

End MiniHost.

(** ** Properties the specification asks for *)

(** Point lies inside the text, for every buffer. *)
Definition pointInRange (w : World) : Prop :=
  forall (p : nat) (b : elBuffer),
    bufHeap w !! p = Some b -> 0 <= point b <= Go.lenL (text b).

(** Every one-byte key bound in the sparse map of a keymap with a dense
    table is found at the index of that byte in the table. *)
Definition denseAgrees (w : World) : Prop :=
  forall (p : nat) (km : elKeymap) (fm : Data) (c : ascii) (d : Data),
    keymapHeap w !! p = Some km ->
    fullMap km = Some fm ->
    bindings km !! String c EmptyString = Some d ->
    vectorItems fm w !! Z.to_nat (Go.byteZ c) = Some d.

(** A condition name [a] is reachable from [c]: [a] is [c] itself or is
    found by following parent links upwards, never past the root [error]
    and never through the empty name. *)
Inductive reaches (parents : gmap string string) : string -> string -> Prop :=
| reaches_here (c : string) :
    c <> EmptyString -> reaches parents c c
| reaches_up (c p a : string) :
    c <> EmptyString -> c <> "error"%string ->
    parents !! c = Some p -> reaches parents p a -> reaches parents c a.

(** The same walk with the names it visits, first to last. *)
Inductive chain (parents : gmap string string) : string -> string -> list string -> Prop :=
| chain_here (c : string) :
    c <> EmptyString -> chain parents c c [c]
| chain_up (c p a : string) (l : list string) :
    c <> EmptyString -> c <> "error"%string -> c <> a ->
    parents !! c = Some p -> chain parents p a l -> chain parents c a (c :: l).

Definition isPanic {A : Type} (r : Res A) : bool :=
  match r with Panic _ => true | _ => false end.

(** The first failure among the results of a sequence of evaluations. *)
Fixpoint firstError (rs : list (Res Data)) : option goerror :=
  match rs with
  | [] => None
  | Raise e :: _ => Some e
  | _ :: rs' => firstError rs'
  end.

Section SpecSide.
Context `{Host}.

(** Evaluate every form in turn in [env], whatever the earlier ones
    returned; the state is threaded through and the results are collected. *)
Fixpoint evalEach (forms : list Data) (env : nat) (w : World)
  : World * list (Res Data) :=
  match forms with
  | [] => (w, [])
  | f :: forms' =>
      let '(w1, r) := Eval f env w in
      let '(w2, rs) := evalEach forms' env w1 in
      (w2, r :: rs)
  end.

(** A binding form [(name init)]. *)
Definition bindingForm (b : string * Data) : Data :=
  golisp.ArrayToList [Sym (fst b); snd b].

(** Evaluate the initializers one after the other, all of them in [env]. *)
Fixpoint evalInits (inits : list Data) (env : nat) : M (list Data) :=
  match inits with
  | [] => ret []
  | e :: inits' =>
      v <- Eval e env ;;
      vs <- evalInits inits' env ;;
      ret (v :: vs)
  end.

(** The bindings [let] collects for [names] once the values are known. *)
Definition bindingsOf (names : list string) (vs : list Data) : list letBinding :=
  zip_with mkLetBinding (Sym <$> names) vs.

Fixpoint bindNames (local : nat) (names : list string) (vs : list Data) : M unit :=
  match names, vs with
  | x :: names', v :: vs' =>
      SymbolTable.BindLocallyTo local (Sym x) v ;;; bindNames local names' vs'
  | _, _ => ret tt
  end.

(** Parallel binding, in the specification's words: every initializer is
    evaluated in the outer environment; only then does the new frame come
    into being and receive the bindings. *)
Definition letParallel (bs : list (string * Data)) (body : Data) (env : nat)
  : M Data :=
  vs <- evalInits (map snd bs) env ;;
  local <- newChildFrame env "let" ;;
  bindNames local (map fst bs) vs ;;;
  evalLetBody body local.

(** Sequential binding: each initializer is evaluated in the new frame,
    which already holds the bindings before it. *)
Fixpoint bindSequentially (bs : list (string * Data)) (local : nat) : M unit :=
  match bs with
  | [] => ret tt
  | (x, e) :: bs' =>
      v <- Eval e local ;;
      SymbolTable.BindLocallyTo local (Sym x) v ;;;
      bindSequentially bs' local
  end.

Definition letSequential (bs : list (string * Data)) (body : Data) (env : nat)
  : M Data :=
  local <- newChildFrame env "let*" ;;
  bindSequentially bs local ;;;
  evalLetBody body local.


End SpecSide.

(** The dense tables are vectors of 256 entries, one per keymap. *)
Definition denseTablesOwned (w : World) : Prop :=
  forall (p : nat) (km : elKeymap) (fm : Data),
    keymapHeap w !! p = Some km -> fullMap km = Some fm ->
    isElVector fm = true /\
    length (vectorItems fm w) = 256%nat /\
    (forall (p' : nat) (km' : elKeymap) (fm' : Data),
        keymapHeap w !! p' = Some km' -> fullMap km' = Some fm' ->
        asElVector fm' = asElVector fm -> p' = p).

Definition keymapsConsistent (w : World) : Prop :=
  denseTablesOwned w /\ denseAgrees w.

(** A computation keeps a property of the state. *)
Definition keeps {A : Type} (J : World -> Prop) (m : M A) : Prop :=
  forall w : World, J w -> J (fst (m w)).

(** Point and text of one buffer, and properties of all of them. *)
Definition inText (b : elBuffer) : Prop := 0 <= point b <= Go.lenL (text b).

Definition allBuffers (P : elBuffer -> Prop) (w : World) : Prop :=
  forall (p : nat) (b : elBuffer), bufHeap w !! p = Some b -> P b.

Definition asciiRunes (rs : list Z) : Prop := Forall (fun r => 0 <= r < 128) rs.

Definition asciiBytes (s : string) : Prop :=
  Forall (fun c => Go.byteZ c < 128) (list_ascii_of_string s).

Definition asciiBuffer (b : elBuffer) : Prop := inText b /\ asciiRunes (text b).


(** The turns a [cl-loop] has left below its cap. *)
Definition turnsLeft (st : loopState) : nat := Z.to_nat (maxIters - iter st).



(** * Theorems *)

Import MiniHost.

Lemma bind_run {A B : Type} (m : M A) (k : A -> M B) (w : World) :
  bind m k w = match m w with
               | (w', Val a) => k a w'
               | (w', Raise e) => (w', Raise e)
               | (w', Panic s) => (w', Panic s)
               end.
Proof. reflexivity. Qed.

Lemma bind_val_inv {A B : Type} (m : M A) (k : A -> M B) (w w' : World) (b : B) :
  bind m k w = (w', Val b) ->
  exists w1 a, m w = (w1, Val a) /\ k a w1 = (w', Val b).
Proof.
  rewrite bind_run. destruct (m w) as [w1 [a|e|s]]; intros Hk; try discriminate.
  eauto.
Qed.

Lemma bind_ext {A B : Type} (m : M A) (k1 k2 : A -> M B) (w : World) :
  (forall a w1, m w = (w1, Val a) -> k1 a w1 = k2 a w1) ->
  bind m k1 w = bind m k2 w.
Proof.
  intros Hk. rewrite !bind_run. destruct (m w) as [w1 [a|e|s]]; auto.
Qed.

Lemma bind_not_none {A B : Type} (m : M A) (k : A -> M (option B)) (w : World) :
  (forall a w1, m w = (w1, Val a) -> snd (k a w1) <> Val None) ->
  snd (bind m k w) <> Val None.
Proof.
  intros Hk. rewrite bind_run. destruct (m w) as [w1 [a|e|s]]; simpl; auto; discriminate.
Qed.

Lemma wrap64_small (z : Z) : - 2 ^ 63 <= z < 2 ^ 63 -> Go.wrap64 z = z.
Proof.
  intros Hz. unfold Go.wrap64.
  rewrite Z.mod_small by lia. lia.
Qed.

Lemma cells_ArrayToList (l : list Data) : cells (golisp.ArrayToList l) = l.
Proof. induction l as [|a l IH]; simpl; [reflexivity | now rewrite IH]. Qed.

Lemma ListP_ArrayToList (l : list Data) : golisp.ListP (golisp.ArrayToList l) = true.
Proof. destruct l; reflexivity. Qed.

(** ** Arity failures of [defun] *)

Section DefunFacts.
Context `{Host}.

Lemma bindRequired_all (local : nat) (ss argArr : list Data) :
  forall (idx : nat) (w : World),
    (idx + length ss <= length argArr)%nat ->
    exists w', bindRequired local ss argArr idx w = (w', Val (idx + length ss)%nat).
Proof.
  induction ss as [|s ss IH]; intros idx w Hlen; simpl in *.
  - exists w. unfold ret. do 2 f_equal. lia.
  - destruct (argArr !! idx) as [a|] eqn:Ha.
    + unfold bind at 1. simpl.
      destruct (IH (S idx) (setFrames
        (alter (fun f => mkFrame (frameName f) (frameParent f) (framePrevious f)
                           (<[golisp.StringValue s := a]> (frameBindings f)))
               local (frames w)) w)) as [w' Hw']; [lia|].
      exists w'. rewrite Hw'. do 2 f_equal. lia.
    + apply lookup_ge_None in Ha. lia.
Qed.

Lemma bindOptional_all (local : nat) (ss argArr : list Data) :
  forall (idx : nat) (w : World),
    (idx + length ss <= length argArr)%nat ->
    exists w', bindOptional local ss argArr idx w = (w', Val (idx + length ss)%nat).
Proof.
  induction ss as [|s ss IH]; intros idx w Hlen; simpl in *.
  - exists w. unfold ret. do 2 f_equal. lia.
  - destruct (argArr !! idx) as [a|] eqn:Ha.
    + unfold bind at 1. simpl.
      destruct (IH (S idx) (setFrames
        (alter (fun f => mkFrame (frameName f) (frameParent f) (framePrevious f)
                           (<[golisp.StringValue s := a]> (frameBindings f)))
               local (frames w)) w)) as [w' Hw']; [lia|].
      exists w'. rewrite Hw'. do 2 f_equal. lia.
    + apply lookup_ge_None in Ha. lia.
Qed.

(** C1, as amended: a call with fewer arguments than the required
    parameters, or with more than required plus optional ones when there is
    no rest parameter, fails with an error that is a text message:
    the function name, "expected at least N parameters" (N the required
    count) respectively "expected N parameters" (N required plus optional),
    and "received K" for the K arguments of the call. *)
Theorem defun_arity_failure_message
    (name params body args : Data) (parent callEnv : nat) (w : World)
    (spec : elispParamSpec) :
  parseElispParamSpec params = inr spec ->
  let fn := golisp.StringValue name in
  let got := Go.lenL (golisp.ToArray args) in
  let run := snd (makeElispDefunWithOptional name params body parent args callEnv w) in
  (got < Go.lenL (required spec) ->
   run = Raise (ErrText (tooFewMessage fn (Go.lenL (required spec)) got))) /\
  (rest spec = None ->
   Go.lenL (required spec) + Go.lenL (optional spec) < got ->
   run = Raise (ErrText (tooManyMessage fn
                  (Go.lenL (required spec) + Go.lenL (optional spec)) got))).
Proof.
  intros Hspec fn got run. subst run. unfold makeElispDefunWithOptional.
  rewrite Hspec. fold fn. fold got. split.
  - intros Hfew. unfold bind, SymbolTable.NewSymbolTableFrameBelow,
      SymbolTable.setPrevious, modify. simpl.
    apply Z.ltb_lt in Hfew. rewrite Hfew. reflexivity.
  - intros Hrest Hmany. unfold Go.lenL in *. subst got.
    unfold bind at 1. unfold SymbolTable.NewSymbolTableFrameBelow.
    unfold bind at 1. unfold SymbolTable.setPrevious, modify.
    destruct (Z.ltb_spec (Z.of_nat (length (golisp.ToArray args)))
                         (Z.of_nat (length (required spec)))) as [Hlt|_]; [lia|].
    unfold bind at 1.
    match goal with |- context [bindRequired ?l ?ss ?a 0%nat ?w0] =>
      destruct (bindRequired_all l ss a 0%nat w0) as [w1 Hw1]; [lia|]; rewrite Hw1
    end.
    unfold bind at 1.
    match goal with |- context [bindOptional ?l ?ss ?a ?i w1] =>
      destruct (bindOptional_all l ss a i w1) as [w2 Hw2]; [lia|]; rewrite Hw2
    end.
    rewrite Hrest. unfold bind at 1, ret.
    destruct (Z.ltb_spec (Z.of_nat (0 + length (required spec) + length (optional spec)))
                         (Z.of_nat (length (golisp.ToArray args)))) as [_|Hge]; [|lia].
    simpl. unfold raise. simpl. do 3 f_equal. lia.
Qed.

End DefunFacts.


(** C1, the claim as stated fails: the failure of a function with two
    required parameters called with three arguments is a [fmt.Errorf] value,
    a message and nothing else; the counts are only to be had by reading
    the text. *)
Lemma defun_arity_failure_is_free_text :
  snd (makeElispDefunWithOptional (Sym "f") (list_ [Sym "a"; Sym "b"; Sym "&optional"])
         (list_ [Sym "a"]) 0%nat (list_ [Int 1; Int 2; Int 3]) 0%nat initialWorld)
  = Raise (ErrText "f expected 2 parameters, received 3").
Proof. vm_compute. reflexivity. Qed.

Lemma defun_arity_failure_message_witness :
  snd (makeElispDefunWithOptional (Sym "f") (list_ [Sym "a"; Sym "b"; Sym "&optional"])
         (list_ [Sym "a"]) 0%nat (list_ [Int 1; Int 2; Int 3]) 0%nat initialWorld)
  = Raise (ErrText (tooManyMessage "f" (2 + 0) 3)).
Proof.
  refine (proj2 (defun_arity_failure_message (Sym "f")
                   (list_ [Sym "a"; Sym "b"; Sym "&optional"]) (list_ [Sym "a"])
                   (list_ [Int 1; Int 2; Int 3]) 0%nat 0%nat initialWorld
                   (mkSpec [Sym "a"; Sym "b"] [] None) _) _ _).
  - reflexivity.
  - reflexivity.
  - vm_compute. reflexivity.
Defined.

(** The callers that retry an entry point read the count back out of the
    message. *)
Example parseExpectedArgCount_reads_the_message :
  parseExpectedArgCount "f expected 2 parameters, received 3" = (2, true) /\
  parseExpectedArgCount "f expected at least 2 parameters, received 1" = (2, true) /\
  parseExpectedArgCount "f: no such thing" = (0, false).
Proof. vm_compute. repeat split; reflexivity. Qed.

(** ** Keymaps *)

Section KeymapFacts.
Context `{Host}.

Lemma keeps_ret {A} J (a : A) : keeps J (ret a).
Proof. intros w Hw. exact Hw. Qed.

Lemma keeps_raise {A} J (e : goerror) : keeps J (@raise A e).
Proof. intros w Hw. exact Hw. Qed.

Lemma keeps_gets {A} J (f : World -> A) : keeps J (gets f).
Proof. intros w Hw. exact Hw. Qed.

Lemma keeps_bind {A B} J (m : M A) (k : A -> M B) :
  keeps J m -> (forall a, keeps J (k a)) -> keeps J (bind m k).
Proof.
  intros Hm Hk w Hw. rewrite bind_run. specialize (Hm w Hw).
  destruct (m w) as [w1 [a|e|s]]; cbn [fst] in *; [now apply Hk|exact Hm|exact Hm].
Qed.

Lemma keeps_try {A} J (m : M A) : keeps J m -> keeps J (try m).
Proof.
  intros Hm w Hw. unfold try. specialize (Hm w Hw).
  destruct (m w) as [w1 [a|e|s]]; exact Hm.
Qed.

Lemma keymapsConsistent_frames (w : World) (fs : list Frame) :
  keymapsConsistent w -> keymapsConsistent (setFrames fs w).
Proof. intros Hw. exact Hw. Qed.

Lemma keeps_BindLocallyTo (env : nat) (sym v : Data) :
  keeps keymapsConsistent (SymbolTable.BindLocallyTo env sym v).
Proof. intros w Hw. exact Hw. Qed.

Lemma keeps_BindTo (env : nat) (sym v : Data) :
  keeps keymapsConsistent (SymbolTable.BindTo env sym v).
Proof.
  intros w Hw. unfold SymbolTable.BindTo.
  destruct (SymbolTable.findFrame _ _ _ _); exact Hw.
Qed.

Lemma keeps_ValueOf (env : nat) (sym : Data) :
  keeps keymapsConsistent (SymbolTable.ValueOf env sym).
Proof. apply keeps_gets. Qed.

Lemma keeps_newKeymap : keeps keymapsConsistent newKeymap.
Proof.
  intros w [Hown Hagree]. unfold newKeymap. cbn [fst]. split.
  - intros p km fm Hp Hfm. cbn [keymapHeap setKeymapHeap] in Hp.
    apply lookup_app_Some in Hp as [Hp|[_ Hp]].
    + destruct (Hown p km fm Hp Hfm) as (Hvec & Hlen & Huniq).
      split; [exact Hvec|]. split; [exact Hlen|].
      intros p' km' fm' Hp' Hfm' Heq. cbn [keymapHeap setKeymapHeap] in Hp'.
      apply lookup_app_Some in Hp' as [Hp'|[_ Hp']]; [eauto|].
      destruct (p' - length (keymapHeap w))%nat as [|n]; [|destruct n; discriminate].
      injection Hp' as <-. discriminate.
    + destruct (p - length (keymapHeap w))%nat as [|n]; [|destruct n; discriminate].
      injection Hp as <-. discriminate.
  - intros p km fm c d Hp Hfm Hb. cbn [keymapHeap setKeymapHeap] in Hp.
    apply lookup_app_Some in Hp as [Hp|[_ Hp]]; [exact (Hagree p km fm c d Hp Hfm Hb)|].
    destruct (p - length (keymapHeap w))%nat as [|n]; [|destruct n; discriminate].
    injection Hp as <-. discriminate.
Qed.

Lemma keySpecStringFuel_reads (env : option nat) :
  forall (fuel : nat) (d : Data) (w : World),
    fst (keySpecStringFuel fuel d env w) = w.
Proof.
  induction fuel as [|fuel IH]; intros d w; destruct d; cbn [keySpecStringFuel];
    try reflexivity;
    try (repeat match goal with |- context [if ?c then _ else _] => destruct c end;
         reflexivity);
    try (destruct env as [e|]; unfold SymbolTable.ValueOf, gets, ret, bind;
         repeat match goal with |- context [if ?c then _ else _] => destruct c end;
         reflexivity).
  all: destruct (isElVector _); [|reflexivity]; rewrite bind_run; unfold gets;
    cbv iota beta; destruct (vectorItems _ w); [reflexivity|first [apply IH|reflexivity]].
Qed.

Lemma keeps_keySpecString J (d : Data) (env : option nat) : keeps J (keySpecString d env).
Proof. intros w Hw. unfold keySpecString. now rewrite keySpecStringFuel_reads. Qed.

Lemma byteZ_lt_256 (c : ascii) : 0 <= Go.byteZ c < 256.
Proof.
  unfold Go.byteZ. pose proof (N_ascii_bounded c) as Hc. lia.
Qed.

Lemma byteZ_inj (c c' : ascii) : Go.byteZ c = Go.byteZ c' -> c = c'.
Proof.
  unfold Go.byteZ. intros Heq. apply N2Z.inj in Heq.
  rewrite <- (ascii_N_embedding c), <- (ascii_N_embedding c'). now rewrite Heq.
Qed.

Lemma setBinding_run (km : nat) (key : string) (v : Data) (w : World) :
  setBinding km key v w =
  (setKeymapHeap
     (alter (fun k => mkKeymap (<[key := v]> (bindings k)) (fullMap k)) km (keymapHeap w)) w,
   Val tt).
Proof. reflexivity. Qed.

(** Without a dense table to write, a new sparse binding disturbs nothing:
    the keymap has no table, or the key is not a single byte. *)
Lemma setBinding_consistent (km : nat) (key : string) (v : Data) (w : World) :
  keymapsConsistent w ->
  (forall k fm c, keymapHeap w !! km = Some k -> fullMap k = Some fm ->
                  key <> String c EmptyString) ->
  keymapsConsistent (fst (setBinding km key v w)).
Proof.
  intros [Hown Hagree] Hkey. rewrite setBinding_run. cbn [fst].
  set (upd := fun k => mkKeymap (<[key := v]> (bindings k)) (fullMap k)).
  assert (Hlook : forall p k', alter upd km (keymapHeap w) !! p = Some k' ->
            exists k, keymapHeap w !! p = Some k /\ fullMap k' = fullMap k /\
                      (k' = k \/ (p = km /\ k' = upd k))).
  { intros p k' Hp. rewrite list_lookup_alter in Hp.
    destruct (decide (km = p)) as [->|Hne].
    - destruct (keymapHeap w !! p) as [k|]; [|discriminate]. injection Hp as <-.
      exists k. split; [reflexivity|]. split; [reflexivity|]. right. now split.
    - exists k'. split; [exact Hp|]. split; [reflexivity|now left]. }
  split.
  - intros p k' fm Hp Hfm. cbn [keymapHeap setKeymapHeap] in Hp.
    destruct (Hlook p k' Hp) as (k & Hk & Hfull & _). rewrite Hfull in Hfm.
    destruct (Hown p k fm Hk Hfm) as (Hvec & Hlen & Huniq).
    split; [exact Hvec|]. split; [exact Hlen|].
    intros p' k2' fm' Hp' Hfm' Heq. cbn [keymapHeap setKeymapHeap] in Hp'.
    destruct (Hlook p' k2' Hp') as (k2 & Hk2 & Hfull2 & _). rewrite Hfull2 in Hfm'.
    eauto.
  - intros p k' fm c d Hp Hfm Hb. cbn [keymapHeap setKeymapHeap] in Hp.
    destruct (Hlook p k' Hp) as (k & Hk & Hfull & [->|[-> ->]]).
    + exact (Hagree p k fm c d Hk Hfm Hb).
    + cbn [fullMap bindings upd] in *.
      rewrite lookup_insert_ne in Hb by (intros Heq; exact (Hkey k fm c Hk Hfm Heq)).
      exact (Hagree km k fm c d Hk Hfm Hb).
Qed.

(** The write of [defineKeyImpl] keeps sparse map and dense table in step. *)
Lemma writeBinding_consistent (km : nat) (key : string) (def : Data) (env : nat) :
  keeps keymapsConsistent (writeBinding km key def env).
Proof.
  intros w Hw. pose proof Hw as [Hown Hagree].
  unfold writeBinding. rewrite bind_run, setBinding_run. rewrite bind_run.
  unfold gets. cbv iota beta. cbn [keymapHeap setKeymapHeap].
  rewrite list_lookup_alter_eq.
  destruct (keymapHeap w !! km) as [k|] eqn:Hk; cbn [fmap option_fmap option_map].
  2:{ change (keymapsConsistent (fst (setBinding km key def w))).
      apply setBinding_consistent; [exact Hw|].
      intros k fm c Hk'. rewrite Hk in Hk'. discriminate. }
  destruct (fullMap k) as [fm|] eqn:Hfm.
  2:{ destruct k as [kb kf]. cbn [fullMap] in Hfm. subst kf. cbv iota.
      change (keymapsConsistent (fst (setBinding km key def w))).
      apply setBinding_consistent; [exact Hw|].
      intros k' fm c Hk'. rewrite Hk in Hk'. injection Hk' as <-. discriminate. }
  destruct k as [kb kf]. cbn [fullMap] in Hfm. subst kf. cbv iota.
  assert (Hother : (forall c, key <> String c EmptyString) ->
            keymapsConsistent
              (setKeymapHeap
                 (alter (fun k0 => mkKeymap (<[key := def]> (bindings k0)) (fullMap k0))
                        km (keymapHeap w)) w)).
  { intros Hne.
    change (keymapsConsistent (fst (setBinding km key def w))).
    apply setBinding_consistent; [exact Hw|]. intros; apply Hne. }
  destruct key as [|c [|c2 key]]; [apply Hother; discriminate| |apply Hother; discriminate].
  clear Hother.
  set (k := mkKeymap kb (Some fm)) in *.
  assert (Hfm : fullMap k = Some fm) by reflexivity.
  destruct (Hown km k fm Hk Hfm) as (Hvec & Hlen & Huniq).
  rewrite bind_run. unfold try, asetImpl.
  cbn [golisp.ArrayToList golisp.Car golisp.Cadr golisp.Caddr golisp.Cddr golisp.Cdr
       golisp.IntegerP negb golisp.IntegerValue].
  rewrite bind_run. unfold writeElt.
  pose proof (byteZ_lt_256 c) as Hc.
  destruct (Z.ltb_spec (Go.byteZ c) 0) as [|_]; [lia|]. rewrite Hvec.
  set (w1 := setKeymapHeap _ w).
  assert (Hitems : vectorItems fm w1 = vectorItems fm w) by reflexivity.
  rewrite Hitems.
  destruct (Z.leb_spec (Go.lenL (vectorItems fm w)) (Go.byteZ c)) as [Hshort|_];
    [unfold Go.lenL in Hshort; lia|].
  cbn [fst].
  set (v := asElVector fm).
  set (setItem := fun items : list Data => <[Z.to_nat (Go.byteZ c) := def]> items).
  assert (Hv : exists items, vectorHeap w !! v = Some items /\ length items = 256%nat).
  { unfold vectorItems in Hlen. destruct fm; try discriminate. subst v. cbn [asElVector].
    destruct (vectorHeap w !! ptr) as [items|]; [eauto|cbn in Hlen; lia]. }
  destruct Hv as (items & Hitemsv & Hlenv).
  assert (Hvi : forall fm', vectorItems fm'
                  (setVectorHeap (alter setItem v (vectorHeap w1)) w1) =
                if decide (asElVector fm' = v) then
                  match fm' with Obj _ _ => setItem items | _ => [] end
                else vectorItems fm' w).
  { intros fm'. unfold vectorItems. destruct fm'; try (destruct (decide _); reflexivity).
    cbn [asElVector vectorHeap setVectorHeap w1 setKeymapHeap].
    rewrite list_lookup_alter. destruct (decide (v = ptr)) as [<-|Hne].
    - rewrite decide_True by reflexivity. now rewrite Hitemsv.
    - rewrite decide_False by congruence. reflexivity. }
  set (upd := fun k0 => mkKeymap (<[String c EmptyString := def]> (bindings k0)) (fullMap k0)).
  assert (Hlook : forall p k', alter upd km (keymapHeap w) !! p = Some k' ->
            exists k0, keymapHeap w !! p = Some k0 /\ fullMap k' = fullMap k0 /\
                       ((p <> km /\ k' = k0) \/ (p = km /\ k0 = k /\ k' = upd k))).
  { intros p k' Hp. rewrite list_lookup_alter in Hp.
    destruct (decide (km = p)) as [<-|Hne].
    - rewrite Hk in Hp. injection Hp as <-.
      exists k. split; [exact Hk|]. split; [reflexivity|]. right. now repeat split.
    - exists k'. split; [exact Hp|]. split; [reflexivity|]. left. split; congruence. }
  split.
  - intros p k' fm' Hp Hfm'. cbn [keymapHeap setVectorHeap w1 setKeymapHeap] in Hp.
    destruct (Hlook p k' Hp) as (k0 & Hk0 & Hfull & _). rewrite Hfull in Hfm'.
    destruct (Hown p k0 fm' Hk0 Hfm') as (Hvec' & Hlen' & Huniq').
    split; [exact Hvec'|]. split.
    + rewrite Hvi. destruct (decide (asElVector fm' = v)) as [Heq|_]; [|exact Hlen'].
      destruct fm'; try discriminate. subst setItem. cbv beta.
      now rewrite length_insert.
    + intros p' k2' fm2 Hp' Hfm2 Heq.
      cbn [keymapHeap setVectorHeap w1 setKeymapHeap] in Hp'.
      destruct (Hlook p' k2' Hp') as (k2 & Hk2 & Hfull2 & _). rewrite Hfull2 in Hfm2.
      eauto.
  - intros p k' fm' c' d Hp Hfm' Hb. cbn [keymapHeap setVectorHeap w1 setKeymapHeap] in Hp.
    destruct (Hlook p k' Hp) as (k0 & Hk0 & Hfull & Hcase). rewrite Hfull in Hfm'.
    rewrite Hvi.
    destruct Hcase as [[Hne ->]|(-> & -> & ->)].
    + rewrite decide_False.
      * exact (Hagree p k0 fm' c' d Hk0 Hfm' Hb).
      * intros Heq. apply Hne. exact (Huniq p k0 fm' Hk0 Hfm' Heq).
    + cbn [fullMap upd] in Hfm'. rewrite Hfm in Hfm'. injection Hfm' as <-.
      rewrite decide_True by reflexivity.
      destruct fm; try discriminate. subst setItem. cbv beta.
      cbn [bindings upd] in Hb.
      destruct (decide (c' = c)) as [->|Hcc].
      * rewrite lookup_insert_eq in Hb. injection Hb as <-.
        apply list_lookup_insert_eq. lia.
      * rewrite lookup_insert_ne in Hb by congruence.
        rewrite list_lookup_insert_ne.
        -- pose proof (Hagree km k _ c' d Hk Hfm Hb) as Hold.
           unfold vectorItems in Hold. fold v in Hold. cbn [asElVector] in v.
           subst v. now rewrite Hitemsv in Hold.
        -- intros Heq. apply Hcc. apply byteZ_inj.
           pose proof (byteZ_lt_256 c'). lia.
Qed.

Ltac keeps_step :=
  first
    [ apply keeps_ret | apply keeps_raise | apply keeps_gets
    | apply keeps_ValueOf | apply keeps_BindTo | apply keeps_newKeymap
    | apply keeps_keySpecString | apply writeBinding_consistent
    | apply keeps_try
    | apply keeps_bind; [|intros ?]
    | match goal with
      | |- keeps _ (if ?c then _ else _) => destruct c
      | |- keeps _ (match ?x with _ => _ end) => destruct x
      | |- keeps _ (let '(_, _) := ?x in _) => destruct x
      end ].

(** [define-key] and [keymap-set] keep the sparse map and the dense table
    of every keymap in agreement on the keys of one byte. *)
Lemma defineKeyImpl_consistent (args : Data) (env : nat) :
  keeps keymapsConsistent (defineKeyImpl args env).
Proof. unfold defineKeyImpl. cbv zeta. repeat keeps_step. Qed.

Lemma keymapSetImpl_consistent (args : Data) (env : nat) :
  keeps keymapsConsistent (keymapSetImpl args env).
Proof. apply defineKeyImpl_consistent. Qed.

(** [make-sparse-keymap] makes a keymap without a dense table. *)
Lemma makeSparseKeymapImpl_consistent (args : Data) (env : nat) :
  keeps keymapsConsistent (makeSparseKeymapImpl args env).
Proof. unfold makeSparseKeymapImpl. repeat keeps_step. Qed.

End KeymapFacts.

(** C2: [defvar-keymap] with [:full] and an initial binding.  The sparse
    map receives the binding for "a"; the dense table is created afterwards
    and filled with nil, so index 97 does not hold it.  [define-key] on the
    same keymap writes both places. *)
Theorem defvar_keymap_full_leaves_dense_table_empty :
  let args := list_ [Sym "my-map"; Sym ":full"; Sym "t"; Str "a"; Sym "cmd"] in
  let w := fst (defvarKeymapImpl args 0%nat initialWorld) in
  denseAgrees initialWorld /\
  (exists km : elKeymap,
     keymapHeap w !! 0%nat = Some km /\
     bindings km !! "a"%string = Some (Sym "cmd") /\
     fullMap km = Some (Obj "el-vector" 0) /\
     vectorItems (Obj "el-vector" 0) w !! 97%nat = Some Nil) /\
  ~ denseAgrees w.
Proof.
  intros args w.
  assert (Hkm : keymapHeap w !! 0%nat =
                Some (mkKeymap {[ "a"%string := Sym "cmd" ]} (Some (Obj "el-vector" 0))))
    by (vm_compute; reflexivity).
  assert (Hvec : vectorItems (Obj "el-vector" 0) w !! 97%nat = Some Nil)
    by (vm_compute; reflexivity).
  split; [|split].
  - intros p km fm c d Hp. destruct p; discriminate.
  - eexists. split; [exact Hkm|].
    split; [vm_compute; reflexivity|]. split; [reflexivity | exact Hvec].
  - intros Hagree.
    specialize (Hagree 0%nat _ (Obj "el-vector" 0) "a"%char (Sym "cmd") Hkm eq_refl).
    assert (Hd : vectorItems (Obj "el-vector" 0) w !! Z.to_nat (Go.byteZ "a") =
                 Some (Sym "cmd")) by (apply Hagree; vm_compute; reflexivity).
    change (Z.to_nat (Go.byteZ "a")) with 97%nat in Hd.
    rewrite Hvec in Hd. discriminate.
Qed.

(** The sibling path: the same binding made by [define-key] after the
    keymap exists is in both places. *)
Example define_key_mirrors_into_dense_table :
  let w1 := fst (defvarKeymapImpl (list_ [Sym "my-map"; Sym ":full"; Sym "t"])
                   0%nat initialWorld) in
  let w := fst (defineKeyImpl (list_ [Obj "el-keymap" 0; Str "a"; Sym "cmd"]) 0%nat w1) in
  (bindings <$> keymapHeap w !! 0%nat) = Some {[ "a"%string := Sym "cmd" ]} /\
  vectorItems (Obj "el-vector" 0) w !! 97%nat = Some (Sym "cmd").
Proof. vm_compute. split; reflexivity. Qed.

(** ** Buffers and match data *)

Section PointFacts.
Context `{Host}.

Lemma pointInRange_allBuffers (w : World) : pointInRange w <-> allBuffers inText w.
Proof. reflexivity. Qed.

Lemma clampPoint_inText (b : elBuffer) : inText (clampPoint b).
Proof.
  unfold clampPoint, inText, Go.lenL.
  repeat match goal with
         | |- context [if ?c then _ else _] => destruct c eqn:?
         end; cbn [point text setPoint] in *;
    rewrite ?Z.ltb_lt, ?Z.ltb_ge in *; lia.
Qed.

Lemma clampPoint_text (b : elBuffer) : text (clampPoint b) = text b.
Proof.
  unfold clampPoint.
  repeat match goal with
         | |- context [if ?c then _ else _] => destruct c
         end; reflexivity.
Qed.

Section Preservation.
Variable P : elBuffer -> Prop.
Hypothesis P_fresh : forall name : string, P (mkBuffer name Nil [] 0).

Lemma updBuffer_all (buf : nat) (f : elBuffer -> elBuffer) (w : World) :
  allBuffers P w ->
  (forall b, bufHeap w !! buf = Some b -> P (f b)) ->
  allBuffers P (fst (updBuffer buf f w)).
Proof.
  intros Hinv Hf p b. unfold updBuffer, modify. cbn [fst bufHeap setBufHeap].
  rewrite list_lookup_alter. destruct (decide (buf = p)) as [->|Hne].
  - destruct (bufHeap w !! p) as [b0|] eqn:Hb0; cbn; [|discriminate].
    intros [= <-]. now apply Hf.
  - apply Hinv.
Qed.

Lemma modifyRt_all (f : runtimeState -> runtimeState) (w : World) :
  allBuffers P w -> allBuffers P (fst (modifyRt f w)).
Proof. intros Hinv. exact Hinv. Qed.

Lemma ensureBuffer_all (name : string) (w : World) :
  allBuffers P w -> allBuffers P (fst (ensureBuffer name w)).
Proof.
  intros Hinv. unfold ensureBuffer.
  destruct (buffers (rt w) !! name); [exact Hinv|].
  intros p b. cbn [fst bufHeap setRt setBufHeap].
  intros Hb. apply lookup_app_Some in Hb as [Hb|[_ Hb]]; [now apply (Hinv p)|].
  destruct (p - length (bufHeap w))%nat; [|destruct n; discriminate].
  injection Hb as <-. apply P_fresh.
Qed.

Lemma currentBuffer_all (w : World) :
  allBuffers P w -> allBuffers P (fst (currentBuffer w)).
Proof.
  intros Hinv. unfold currentBuffer, selectedWindow. rewrite !bind_run.
  unfold gets at 1. cbv iota beta.
  destruct (windows (rt w) !! selectedWindowID (rt w)); [exact Hinv|].
  destruct (map_to_list (windows (rt w))) as [|[k win] l]; [|exact Hinv].
  unfold ensureInitialWindowAndBuffer. rewrite !bind_run.
  pose proof (ensureBuffer_all "*scratch*" w Hinv) as Hinv1.
  destruct (ensureBuffer "*scratch*" w) as [w1 [buf|e|s]]; cbn [fst] in *; try exact Hinv1.
  unfold newWindowForBuffer, modifyRt, modify, gets. cbn.
  destruct (_ !! _); exact Hinv1.
Qed.

(** The shape shared by the buffer primitives: find the current buffer,
    read it, and act on it. *)
Lemma onCurrentBuffer_all {A : Type} (none : M A) (some : nat -> elBuffer -> M A)
    (w : World) :
  (forall w0, allBuffers P w0 -> allBuffers P (fst (none w0))) ->
  (forall w0 buf b, allBuffers P w0 -> bufHeap w0 !! buf = Some b ->
                    allBuffers P (fst (some buf b w0))) ->
  allBuffers P w ->
  allBuffers P (fst ((buf <- currentBuffer ;;
                      ob <- readBuffer buf ;;
                      match ob with
                      | None => none
                      | Some b => some buf b
                      end) w)).
Proof.
  intros Hnone Hsome Hinv. rewrite bind_run.
  pose proof (currentBuffer_all w Hinv) as Hinv1.
  destruct (currentBuffer w) as [w1 [buf|e|s]]; cbn [fst] in *; try exact Hinv1.
  rewrite bind_run. unfold readBuffer, gets. cbv iota beta.
  destruct (bufHeap w1 !! buf) as [b|] eqn:Hb; [now apply Hsome|now apply Hnone].
Qed.

End Preservation.

Lemma inText_fresh (name : string) : inText (mkBuffer name Nil [] 0).
Proof. unfold inText, Go.lenL. cbn. lia. Qed.

Lemma slice_length {A : Type} (xs : list A) (lo hi : Z) :
  0 <= lo <= hi -> hi <= Go.lenL xs -> Go.lenL (Go.slice xs lo hi) = hi - lo.
Proof.
  unfold Go.lenL, Go.slice. intros Hlo Hhi.
  rewrite length_take, length_drop. lia.
Qed.

(** [goto-char] keeps point inside the text. *)
Lemma gotoCharImpl_pointInRange (args : Data) (w : World) :
  pointInRange w -> pointInRange (fst (gotoCharImpl args w)).
Proof.
  unfold gotoCharImpl. apply (onCurrentBuffer_all inText inText_fresh).
  - intros w0 Hw0. exact Hw0.
  - intros w0 buf b Hw0 Hb. rewrite bind_run.
    pose proof (updBuffer_all inText buf
      (setPoint (Z.min (Z.max (Go.wrap64 (golisp.IntegerValue (golisp.Car args) - 1)) 0)
                       (Go.lenL (text b)))) w0 Hw0) as Hupd.
    destruct (updBuffer _ _ w0) as [w1 [[]|e|s]]; cbn [fst] in *; apply Hupd;
      intros b0 Hb0; rewrite Hb in Hb0; injection Hb0 as <-;
      unfold inText, Go.lenL; cbn [point text setPoint]; lia.
Qed.

(** [insert] keeps point inside the text. *)
Lemma insertImpl_pointInRange (args : Data) (w : World) :
  pointInRange w -> pointInRange (fst (insertImpl args w)).
Proof.
  unfold insertImpl. apply (onCurrentBuffer_all inText inText_fresh).
  - intros w0 Hw0. exact Hw0.
  - intros w0 buf b Hw0 Hb. rewrite bind_run.
    assert (Hclamp : allBuffers inText (fst (updBuffer buf clampPoint w0))).
    { apply updBuffer_all; [exact Hw0|]. intros. apply clampPoint_inText. }
    destruct (updBuffer buf clampPoint w0) as [w1 [[]|e|s]]; cbn [fst] in *;
      try exact Hclamp.
    destruct (Go.runes _) as [|r rs] eqn:Hrs; [exact Hclamp|].
    rewrite bind_run.
    match goal with |- context [updBuffer buf ?f w1] =>
      pose proof (updBuffer_all inText buf f w1 Hclamp) as Hupd;
      destruct (updBuffer buf f w1) as [w2 [[]|e|s]]; cbn [fst] in *; apply Hupd
    end;
      intros b0 Hb0; specialize (Hclamp _ _ Hb0); unfold inText in *;
      cbn [point text setPoint setText];
      pose proof (slice_length (text b0) 0 (point b0)) as H1;
      pose proof (slice_length (text b0) (point b0) (Go.lenL (text b0))) as H2;
      unfold Go.lenL in *; rewrite !length_app; cbn [length] in *; lia.
Qed.

(** [delete-region] keeps point inside the text. *)
Lemma deleteRegionImpl_pointInRange (args : Data) (w : World) :
  pointInRange w -> pointInRange (fst (deleteRegionImpl args w)).
Proof.
  unfold deleteRegionImpl. apply (onCurrentBuffer_all inText inText_fresh).
  - intros w0 Hw0. exact Hw0.
  - intros w0 buf b Hw0 Hb.
    repeat match goal with
           | |- context [let '(_, _) := (if ?c then _ else _) in _] => destruct c
           end; cbv zeta;
      rewrite bind_run;
      match goal with |- context [updBuffer buf ?f w0] =>
        pose proof (updBuffer_all inText buf f w0 Hw0) as Hupd;
        destruct (updBuffer buf f w0) as [w1 [[]|e|s]]; cbn [fst] in *; apply Hupd
      end; intros; apply clampPoint_inText.
Qed.

Lemma encodeRune_ascii (r : Z) : 0 <= r < 128 -> Go.encodeRune r = [Go.byteOfZ r].
Proof.
  intros Hr. unfold Go.encodeRune.
  destruct (Z.leb_spec 0 r); [|lia]. destruct (Z.ltb_spec r 128); [reflexivity|lia].
Qed.

Lemma stringOfRunes_ascii_len (rs : list Z) :
  asciiRunes rs -> Go.len (Go.stringOfRunes rs) = Go.lenL rs.
Proof.
  unfold Go.len, Go.lenL. induction 1 as [|r rs Hr Hrs IH]; [reflexivity|].
  cbn [Go.stringOfRunes]. rewrite (encodeRune_ascii r Hr).
  change (Z.of_nat (String.length (String (Go.byteOfZ r) (Go.stringOfRunes rs))) =
          Z.of_nat (length (r :: rs))).
  cbn [String.length length]. lia.
Qed.

Lemma CutPrefix_length (p s r : string) :
  Go.CutPrefix p s = Some r -> (String.length p <= String.length s)%nat.
Proof.
  revert s. induction p as [|a p IH]; intros s Hcut; [cbn; lia|].
  destruct s as [|b s]; [discriminate|]. cbn in Hcut.
  destruct (Ascii.eqb a b); [|discriminate]. apply IH in Hcut. cbn. lia.
Qed.

Lemma Index_bound (s needle : string) :
  0 <= Go.Index s needle -> Go.Index s needle + Go.len needle <= Go.len s.
Proof.
  unfold Go.len. induction s as [|c s IH]; cbn [Go.Index]; unfold Go.HasPrefix.
  - destruct (Go.CutPrefix needle EmptyString) eqn:Hcut; [|lia].
    apply CutPrefix_length in Hcut. lia.
  - destruct (Go.CutPrefix needle (String c s)) eqn:Hcut.
    + apply CutPrefix_length in Hcut. lia.
    + cbv zeta. destruct (Z.ltb_spec (Go.Index s needle) 0); [lia|].
      intros _. cbn [String.length]. lia.
Qed.

Lemma runesFuel_ascii_len (s : string) :
  asciiBytes s ->
  forall fuel : nat, (String.length s <= fuel)%nat ->
    length (Go.runesFuel fuel s) = String.length s.
Proof.
  unfold asciiBytes. induction s as [|c s IH]; intros Hs fuel Hfuel.
  - destruct fuel; reflexivity.
  - destruct fuel as [|fuel]; [cbn in Hfuel; lia|].
    cbn [list_ascii_of_string] in Hs. apply Forall_cons in Hs as [Hc Hs].
    cbn [Go.runesFuel]. unfold Go.decodeRune.
    destruct (Z.ltb_spec (Go.byteZ c) 128); [|lia].
    cbn [Go.dropBytes length String.length]. rewrite IH; [reflexivity|exact Hs|].
    cbn in Hfuel. lia.
Qed.

Lemma runes_ascii_len (s : string) :
  asciiBytes s -> Go.lenL (Go.runes s) = Go.len s.
Proof.
  intros Hs. unfold Go.lenL, Go.len, Go.runes. now rewrite runesFuel_ascii_len.
Qed.


(** On text and needle within ASCII, where a character is a byte, literal
    search keeps point inside the text. *)
Lemma searchForwardImpl_ascii_pointInRange (args : Data) (w : World) :
  asciiBytes (featureName (golisp.Car args)) ->
  allBuffers asciiBuffer w ->
  allBuffers asciiBuffer (fst (searchForwardImpl args w)).
Proof.
  intros Hneedle. unfold searchForwardImpl.
  assert (Hfresh : forall name, asciiBuffer (mkBuffer name Nil [] 0)).
  { intros name. split; [apply inText_fresh|constructor]. }
  apply (onCurrentBuffer_all asciiBuffer Hfresh).
  - intros w0 Hw0. exact Hw0.
  - intros w0 buf b Hw0 Hb.
    destruct (String.eqb _ _); [exact Hw0|].
    rewrite bind_run.
    assert (Hclamp : allBuffers asciiBuffer (fst (updBuffer buf clampPoint w0))).
    { apply updBuffer_all; [exact Hw0|]. intros b0 Hb0. split.
      - apply clampPoint_inText.
      - rewrite clampPoint_text. apply (Hw0 _ _ Hb0). }
    assert (Hheap : bufHeap (fst (updBuffer buf clampPoint w0)) !! buf = Some (clampPoint b)).
    { unfold updBuffer, modify. cbn. now rewrite list_lookup_alter_eq, Hb. }
    destruct (updBuffer buf clampPoint w0) as [w1 [[]|e|s]]; cbn [fst] in *;
      try exact Hclamp.
    destruct (Z.ltb_spec (forwardLimit args b) (point (clampPoint b))) as [|Hlim];
      [exact Hclamp|].
    set (seg := Go.stringOfRunes _).
    destruct (Z.ltb_spec (Go.Index seg (featureName (golisp.Car args))) 0) as [|Hidx];
      [exact Hclamp|].
    rewrite !bind_run. unfold modifyRt, modify. cbv iota beta. rewrite bind_run.
    match goal with |- context [updBuffer buf ?f ?w2] =>
      assert (Hupd : allBuffers asciiBuffer (fst (updBuffer buf f w2)))
    end.
    { apply updBuffer_all; [exact Hclamp|]. cbn [bufHeap setRt].
      intros b0 Hb0. rewrite Hheap in Hb0. injection Hb0 as <-.
      destruct (Hclamp _ _ Hheap) as [Hin Hascii]. split; [|exact Hascii].
      pose proof (Index_bound seg _ Hidx) as Hbound.
      assert (Hseg : Go.len seg =
                     forwardLimit args b - point (clampPoint b)).
      { subst seg. rewrite stringOfRunes_ascii_len.
        - rewrite clampPoint_text in *. apply slice_length; [unfold inText in Hin; lia|].
          unfold forwardLimit. destruct (_ && _); lia.
        - unfold Go.slice. apply Forall_take, Forall_drop. exact Hascii. }
      rewrite runes_ascii_len by exact Hneedle.
      unfold inText in *. cbn [point text setPoint].
      assert (forwardLimit args b <= Go.lenL (text (clampPoint b))).
      { rewrite clampPoint_text. unfold forwardLimit. destruct (_ && _); lia. }
      pose proof (Zle_0_nat (String.length (featureName (golisp.Car args)))).
      unfold Go.len in *. lia. }
    destruct (updBuffer buf _ _) as [w3 [[]|e|s]]; cbn [fst] in *; exact Hupd.
Qed.

End PointFacts.


(** C3: starting from the initial state, [(insert "éb")] leaves the two
    characters 233 and 98 in the buffer and [(goto-char 1)] puts point at
    the beginning; point is within the text.  The search for "b" then adds
    the byte offset 2 of the match in the UTF-8 segment to point, a
    character offset, and leaves point at 3, outside the text of length
    2. *)
Theorem search_forward_multibyte_point_past_end :
  let eb := String (Go.byteOfZ 195) (String (Go.byteOfZ 169) "b") in
  let w1 := fst (insertImpl (list_ [Str eb]) initialWorld) in
  let w2 := fst (gotoCharImpl (list_ [Int 1]) w1) in
  let w3 := fst (searchForwardImpl (list_ [Str "b"]) w2) in
  bufHeap w2 = [mkBuffer "*scratch*" Nil [233; 98] 0] /\
  pointInRange w2 /\
  Go.Index eb "b" = 2 /\
  snd (searchForwardImpl (list_ [Str "b"]) w2) = Val (Int 4) /\
  bufHeap w3 = [mkBuffer "*scratch*" Nil [233; 98] 3] /\
  ~ pointInRange w3.
Proof.
  assert (H2 : bufHeap (fst (gotoCharImpl (list_ [Int 1])
                 (fst (insertImpl
                    (list_ [Str (String (Go.byteOfZ 195) (String (Go.byteOfZ 169) "b"))])
                    initialWorld))))
               = [mkBuffer "*scratch*" Nil [233; 98] 0])
    by (vm_compute; reflexivity).
  assert (H3 : bufHeap (fst (searchForwardImpl (list_ [Str "b"])
                 (fst (gotoCharImpl (list_ [Int 1])
                    (fst (insertImpl
                       (list_ [Str (String (Go.byteOfZ 195) (String (Go.byteOfZ 169) "b"))])
                       initialWorld))))))
               = [mkBuffer "*scratch*" Nil [233; 98] 3])
    by (vm_compute; reflexivity).
  cbv zeta. split; [exact H2|]. split; [|split; [|split; [|split]]].
  - intros p b Hb. rewrite H2 in Hb.
    destruct p as [|p]; simpl in Hb; [|destruct p; discriminate].
    injection Hb as <-. vm_compute. split; discriminate.
  - vm_compute. reflexivity.
  - vm_compute. reflexivity.
  - exact H3.
  - intros Hinv.
    specialize (Hinv 0%nat (mkBuffer "*scratch*" Nil [233; 98] 3)).
    rewrite H3 in Hinv.
    assert (Hpt : 0 <= 3 <= 2) by (apply Hinv; reflexivity).
    lia.
Qed.

Section ReplaceFacts.
Context `{Host}.

(** The guarded cases of [replaceMatchImpl]: when the match data is empty,
    or, for a requested subexpression number n with 0 <= n < 2^62, holds no
    pair for n or holds the pair (-1, -1), [replace-match] returns the
    replacement string and changes nothing: every buffer, point and the
    match data stay as they are. *)
Lemma replace_match_without_pair_is_noop (args : Data) (w : World) :
  let subexp := requestedSubexp args in
  let md := matchData (rt w) in
  md = [] \/
  (0 <= subexp < 2 ^ 62 /\
   (Go.lenL md <= 2 * subexp + 1 \/
    (md !! Z.to_nat (2 * subexp) = Some (-1) /\
     md !! Z.to_nat (2 * subexp + 1) = Some (-1)))) ->
  replaceMatchImpl args w = (w, Val (Str (featureName (golisp.Car args)))).
Proof.
  intros subexp md Hcases. unfold replaceMatchImpl. fold subexp.
  unfold bind at 1, gets. fold md.
  destruct (Z.ltb_spec (Go.lenL md) 2) as [Hshort|Hlong]; [reflexivity|].
  destruct Hcases as [Hempty|[Hsub Hpair]].
  { rewrite Hempty in Hlong. unfold Go.lenL in Hlong. simpl in Hlong. lia. }
  rewrite wrap64_small by lia.
  replace (subexp * 2) with (2 * subexp) by lia.
  destruct (Z.leb_spec (Go.lenL md) (2 * subexp + 1)) as [Hno|Hyes]; [reflexivity|].
  destruct Hpair as [Hno|[Hs He]]; [lia|].
  destruct (Z.ltb_spec (2 * subexp) 0) as [Hneg|_]; [lia|].
  unfold nthZ. rewrite Hs. reflexivity.
Qed.

End ReplaceFacts.

(** A subexpression number past the recorded pairs takes the guard
    [pairIdx+1 >= len(matchData)]: the call returns the replacement and
    leaves the world as it was. *)
Lemma replace_match_subexp_past_the_pairs :
  let w := fst (searchForwardImpl (list_ [Str "b"]) (worldWithText (Go.runes "aabbaa"))) in
  let args := list_ [Str "x"; Nil; Nil; Nil; Int 1] in
  replaceMatchImpl args w = (w, Val (Str "x")).
Proof.
  intros w args.
  apply (replace_match_without_pair_is_noop args w).
  right. split; [vm_compute; split; [discriminate|reflexivity]|].
  left. vm_compute. discriminate.
Defined.

(** C10: [replace-match] without a source string, asked for a
    subexpression the match data has no pair for.  After a search has
    recorded the single pair (3, 4), the record has no entry at the
    indices -2 and -1 of subexpression -1.  The guards of
    [replaceMatchImpl] test the length of the record and
    [pairIdx+1 >= len(matchData)] only, so the call does not return the
    replacement: it reads [matchData[-2]] and stops with a run-time
    panic. *)
Theorem replace_match_negative_subexp_panics :
  let w := fst (searchForwardImpl (list_ [Str "b"]) (worldWithText (Go.runes "aabbaa"))) in
  let args := list_ [Str "x"; Nil; Nil; Nil; Int (-1)] in
  matchData (rt w) = [3; 4] /\
  golisp.Car (golisp.Cdddr args) = Nil /\
  requestedSubexp args = -1 /\
  Go.wrap64 (requestedSubexp args * 2) = -2 /\
  snd (replaceMatchImpl args w) = Panic "index out of range" /\
  snd (replaceMatchImpl args w) <> Val (Str "x").
Proof. vm_compute. repeat split; try reflexivity. discriminate. Qed.

(** ** [let] and [let*] *)

Section LetFacts.
Context `{Host}.

Lemma parseLetLoop_parallel (env : nat) (bs : list (string * Data)) :
  forall (acc : list letBinding) (w : World),
    parseLetLoop (map bindingForm bs) env env false acc w =
    (vs <- evalInits (map snd bs) env ;;
     ret (acc ++ bindingsOf (map fst bs) vs)) w.
Proof.
  induction bs as [|[x e] bs IH]; intros acc w; simpl.
  - unfold bind, ret, bindingsOf. simpl. rewrite List.app_nil_r. reflexivity.
  - rewrite !bind_run. destruct (Eval e env w) as [w1 [v|err|s]]; try reflexivity.
    rewrite IH. rewrite !bind_run.
    destruct (evalInits (map snd bs) env w1) as [w2 [vs|err|s]]; try reflexivity.
    unfold ret, bindingsOf. simpl. rewrite <- List.app_assoc. reflexivity.
Qed.

Lemma bindAll_bindNames (local : nat) (names : list string) :
  forall (vs : list Data) (w : World),
    bindAll local (bindingsOf names vs) w = bindNames local names vs w.
Proof.
  induction names as [|x names IH]; intros vs w; simpl; [reflexivity|].
  destruct vs as [|v vs]; simpl; [reflexivity|].
  rewrite !bind_run. simpl. apply IH.
Qed.

Lemma letImpl_parallel (bs : list (string * Data)) (body : Data) (env : nat) (w : World) :
  letImpl (Cons (golisp.ArrayToList (map bindingForm bs)) body) env w =
  letParallel bs body env w.
Proof.
  unfold letImpl, letParallel, parseElispLetBindings. cbn [golisp.Car golisp.Cdr].
  rewrite ListP_ArrayToList, cells_ArrayToList. change (negb true) with false. cbv iota.
  rewrite !bind_run. unfold ret at 1. cbv iota beta. rewrite bind_run.
  rewrite parseLetLoop_parallel. rewrite !bind_run.
  destruct (evalInits (map snd bs) env w) as [w1 [vs|err|s]]; try reflexivity.
  unfold ret at 1 2. simpl app.
  rewrite !bind_run.
  destruct (newChildFrame env "let" w1) as [w2 [local|err|s]]; try reflexivity.
  rewrite !bind_run. rewrite bindAll_bindNames. reflexivity.
Qed.

Lemma letStarLoop_sequential (local : nat) (bs : list (string * Data)) :
  forall w : World,
    letStarLoop (map bindingForm bs) local w = bindSequentially bs local w.
Proof.
  induction bs as [|[x e] bs IH]; intros w; simpl; [reflexivity|].
  change (golisp.Cadr (bindingForm (x, e))) with e.
  rewrite !bind_run. destruct (Eval e local w) as [w1 [v|err|s]]; try reflexivity.
  rewrite !bind_run. simpl. apply IH.
Qed.

Lemma letStarImpl_sequential (bs : list (string * Data)) (body : Data) (env : nat)
    (w : World) :
  letStarImpl (Cons (golisp.ArrayToList (map bindingForm bs)) body) env w =
  letSequential bs body env w.
Proof.
  unfold letStarImpl, letSequential. cbn [golisp.Car golisp.Cdr].
  rewrite ListP_ArrayToList, cells_ArrayToList. change (negb true) with false. cbv iota.
  rewrite !bind_run.
  destruct (newChildFrame env "let*" w) as [w1 [local|err|s]]; try reflexivity.
  rewrite !bind_run. rewrite letStarLoop_sequential. reflexivity.
Qed.

Lemma bound_then_visible (local : nat) (x : string) (v : Data) (w : World) :
  (local < length (frames w))%nat ->
  snd (SymbolTable.ValueOf local (Sym x)
         (fst (SymbolTable.BindLocallyTo local (Sym x) v w))) = Val v.
Proof.
  intros Hlt. destruct (lookup_lt_is_Some_2 (frames w) local Hlt) as [f Hf].
  unfold SymbolTable.ValueOf, SymbolTable.BindLocallyTo, gets.
  cbn [fst snd frames setFrames golisp.StringValue].
  unfold SymbolTable.lookup. cbn [SymbolTable.findFrame].
  rewrite list_lookup_alter_eq, Hf. cbn [fmap option_fmap option_map frameBindings].
  rewrite lookup_insert_eq.
  rewrite list_lookup_alter_eq, Hf. cbn [fmap option_fmap option_map frameBindings].
  rewrite lookup_insert_eq. reflexivity.
Qed.

End LetFacts.

(** C6: [let] is parallel and [let*] is sequential.  On a list of
    binding forms (name init), [let] is [letParallel]: all initializers are
    evaluated in the outer environment, and only afterwards is the frame
    with the new bindings made; [let*] is [letSequential]: each initializer
    is evaluated in the new frame, where a name bound earlier is found with
    its value.  With an outer x = 10, the bindings ((x 1) (y x)) give y = 10
    under [let] and y = 1 under [let*]; with no outer x, [let] gives y the
    value nil; and (let* ((x 1) (y (+ x 1))) y) is 2. *)
Theorem let_is_parallel_let_star_is_sequential :
  (forall (H : Host) (bs : list (string * Data)) (body : Data) (env : nat) (w : World),
      letImpl (Cons (golisp.ArrayToList (map bindingForm bs)) body) env w =
      letParallel bs body env w) /\
  (forall (H : Host) (bs : list (string * Data)) (body : Data) (env : nat) (w : World),
      letStarImpl (Cons (golisp.ArrayToList (map bindingForm bs)) body) env w =
      letSequential bs body env w) /\
  (forall (local : nat) (x : string) (v : Data) (w : World),
      (local < length (frames w))%nat ->
      snd (SymbolTable.ValueOf local (Sym x)
             (fst (SymbolTable.BindLocallyTo local (Sym x) v w))) = Val v) /\
  (let b1 := list_ [list_ [Sym "x"; Int 1]; list_ [Sym "y"; Sym "x"]] in
   let outer := fun inner => list_ [Sym "let"; list_ [list_ [Sym "x"; Int 10]]; inner] in
   snd (Eval (outer (list_ [Sym "let"; b1; Sym "y"])) 0%nat initialWorld) = Val (Int 10) /\
   snd (Eval (outer (list_ [Sym "let*"; b1; Sym "y"])) 0%nat initialWorld) = Val (Int 1) /\
   snd (Eval (list_ [Sym "let"; b1; Sym "y"]) 0%nat initialWorld) = Val Nil /\
   snd (Eval (list_ [Sym "let*";
                     list_ [list_ [Sym "x"; Int 1];
                            list_ [Sym "y"; list_ [Sym "+"; Sym "x"; Int 1]]];
                     Sym "y"]) 0%nat initialWorld) = Val (Int 2)).
Proof.
  split; [|split; [|split]].
  - intros H. apply letImpl_parallel.
  - intros H. apply letStarImpl_sequential.
  - apply bound_then_visible.
  - vm_compute. repeat split; reflexivity.
Qed.

Lemma let_is_parallel_let_star_is_sequential_witness :
  snd (SymbolTable.ValueOf 0%nat (Sym "x")
         (fst (SymbolTable.BindLocallyTo 0%nat (Sym "x") (Int 1) initialWorld)))
  = Val (Int 1).
Proof.
  apply (proj1 (proj2 (proj2 let_is_parallel_let_star_is_sequential))).
  vm_compute. lia.
Defined.

(** ** [unwind-protect] *)

Section UnwindProtectFacts.
Context `{Host}.

Lemma cleanupLoop_evalEach (forms : list Data) (env : nat) :
  forall (acc : option goerror) (w : World),
    Forall (fun r => isPanic r = false) (snd (evalEach forms env w)) ->
    cleanupLoop forms env acc w =
    (fst (evalEach forms env w),
     Val (match acc with
          | Some e => Some e
          | None => firstError (snd (evalEach forms env w))
          end)).
Proof.
  induction forms as [|f forms IH]; intros acc w Hnp; simpl in *.
  - destruct acc; reflexivity.
  - unfold bind at 1, try.
    destruct (Eval f env w) as [w1 r] eqn:Hev.
    destruct (evalEach forms env w1) as [w2 rs] eqn:Hrest. simpl in *.
    inversion Hnp as [|? ? Hr Hrs]; subst.
    assert (Hrs' : Forall (fun r => isPanic r = false) (snd (evalEach forms env w1)))
      by (rewrite Hrest; exact Hrs).
    destruct r as [v|e|s]; simpl in Hr; try discriminate.
    + rewrite IH by exact Hrs'. rewrite Hrest. simpl. destruct acc; reflexivity.
    + rewrite IH by exact Hrs'. rewrite Hrest. simpl. destruct acc; reflexivity.
Qed.

(** C4: [unwind-protect] evaluates the protected form and then every
    cleanup form in turn, whatever any of them returned (no evaluation
    panicking).  The state is the one after all of them; the outcome is the
    failure of the protected form if it failed, else the first cleanup
    failure if there is one, else the value of the protected form. *)
Theorem unwind_protect_runs_every_cleanup (args : Data) (env : nat) (w : World) :
  let run := Eval (golisp.Car args) env w in
  let cleanup := evalEach (cells (golisp.Cdr args)) env (fst run) in
  isPanic (snd run) = false ->
  Forall (fun r => isPanic r = false) (snd cleanup) ->
  unwindProtectImpl args env w =
  (fst cleanup,
   match snd run with
   | Raise runErr => Raise runErr
   | Val result =>
       match firstError (snd cleanup) with
       | Some cleanupErr => Raise cleanupErr
       | None => Val result
       end
   | Panic why => Panic why
   end).
Proof.
  intros run cleanup Hrun Hclean. subst run cleanup.
  unfold unwindProtectImpl. unfold bind at 1, try.
  destruct (Eval (golisp.Car args) env w) as [w1 r] eqn:Hev. simpl in *.
  destruct r as [v|e|s]; simpl in Hrun; try discriminate.
  - unfold bind at 1. rewrite cleanupLoop_evalEach by exact Hclean.
    destruct (firstError _); reflexivity.
  - unfold bind at 1. rewrite cleanupLoop_evalEach by exact Hclean.
    reflexivity.
Qed.

End UnwindProtectFacts.

(** The protected form throws, the cleanup assigns a variable: the throw
    escapes and the assignment is there. *)
Lemma unwind_protect_runs_every_cleanup_witness :
  let args := list_ [list_ [Sym "throw"; list_ [Sym "quote"; Sym "k"]; Int 42];
                     list_ [Sym "setq"; Sym "c"; Int 5]] in
  snd (unwindProtectImpl args 0%nat initialWorld) = Raise (ErrThrow "k" (Int 42)) /\
  SymbolTable.lookup (frames (fst (unwindProtectImpl args 0%nat initialWorld))) 0%nat "c"
  = Some (Int 5).
Proof.
  intros args.
  assert (Hrun : isPanic (snd (Eval (golisp.Car args) 0%nat initialWorld)) = false)
    by (vm_compute; reflexivity).
  assert (Hclean : Forall (fun r => isPanic r = false)
            (snd (evalEach (cells (golisp.Cdr args)) 0%nat
                    (fst (Eval (golisp.Car args) 0%nat initialWorld)))))
    by (vm_compute; repeat constructor).
  rewrite (unwind_protect_runs_every_cleanup args 0%nat initialWorld Hrun Hclean).
  split; vm_compute; reflexivity.
Defined.

(** ** The condition hierarchy *)

Section ParentChain.
Variable parents : gmap string string.


Lemma chain_reaches (c a : string) (l : list string) :
  chain parents c a l -> reaches parents c a.
Proof. induction 1; [now constructor | eapply reaches_up; eauto]. Qed.

Lemma chain_head (c a : string) (l : list string) :
  chain parents c a l -> exists l', l = c :: l'.
Proof. destruct 1; eauto. Qed.







End ParentChain.


Section ConditionCaseFacts.
Context `{Host}.




(** [define-error] with parent [error] (explicit, or by default) records
    it in the table the walk reads. *)
Lemma defineErrorImpl_registers (name : string) (rest : Data) (env : nat) (w : World) :
  (rest = Nil \/ exists msg more, rest = Cons msg Nil \/ rest = Cons msg (Cons (Sym "error") more)) ->
  errorParents (rt (fst (defineErrorImpl (Cons (Sym name) rest) env w))) !! name
  = Some "error"%string.
Proof.
  intros Hrest. unfold defineErrorImpl. cbn [golisp.Car golisp.SymbolP negb].
  assert (Hparent : (if golisp.NotNilP (golisp.Cddr (Cons (Sym name) rest)) &&
                        golisp.SymbolP (golisp.Caddr (Cons (Sym name) rest))
                     then golisp.StringValue (golisp.Caddr (Cons (Sym name) rest))
                     else "error"%string) = "error"%string).
  { destruct Hrest as [->|(msg & more & [->| ->])]; reflexivity. }
  rewrite Hparent. rewrite !bind_run. unfold modifyRt, modify. cbn [golisp.StringValue].
  rewrite bind_run. unfold try, SymbolTable.BindTo.
  destruct (SymbolTable.findFrame _ _ _ _); simpl; apply lookup_insert_eq.
Qed.

End ConditionCaseFacts.


(** ** The preprocessor *)

Import Preprocessor.

























(** ** [cl-loop] *)

Section ClLoopFacts.
Context `{Host}.

Variables (cl : loopClauses) (body : list Data) (local : nat)
          (seqItems : option (list Data)) (repeatCount nEnd nStep : Z).

Lemma seqController_admits (st : loopState) (w w' : World) :
  seqController cl local seqItems st w = (w', Val true) ->
  forall items, seqItems = Some items -> iter st < Go.lenL items.
Proof.
  intros Hgo items ->. unfold seqController in Hgo.
  destruct (Z.leb_spec (Go.lenL items) (iter st)); [discriminate|lia].
Qed.

Lemma numericController_admits (st : loopState) (w w' : World) :
  numericController cl local nEnd st w = (w', Val true) ->
  numericVar cl <> None -> numericOk (numericCmp cl) (nVal st) nEnd = true.
Proof.
  unfold numericController. intros Hgo Hvar.
  destruct (numericVar cl); [|contradiction].
  destruct (numericOk _ _ _); [reflexivity|discriminate].
Qed.

Lemma whileController_admits (w w' : World) :
  whileController cl local w = (w', Val true) ->
  forall e, whileExpr cl = Some e ->
    exists v, Eval e local w = (w', Val v) /\ golisp.BooleanValue v = true.
Proof.
  unfold whileController. intros Hgo e He. rewrite He in Hgo.
  apply bind_val_inv in Hgo as (w1 & v & Hev & Hret).
  injection Hret as -> Hb. eauto.
Qed.

(** A turn enters the loop body only if every active controller lets it. *)
Lemma controllers_admit (st : loopState) (w w' : World) :
  controllers cl local seqItems repeatCount nEnd st w = (w', Val true) ->
  iter st < maxIters /\
  (0 <= repeatCount -> iter st < repeatCount) /\
  (forall items, seqItems = Some items -> iter st < Go.lenL items) /\
  (numericVar cl <> None -> numericOk (numericCmp cl) (nVal st) nEnd = true) /\
  (forall e, whileExpr cl = Some e ->
     exists w0 v, Eval e local w0 = (w', Val v) /\ golisp.BooleanValue v = true).
Proof.
  unfold controllers.
  destruct (Z.leb_spec maxIters (iter st)) as [|Hcap]; [discriminate|].
  destruct ((0 <=? repeatCount) && (repeatCount <=? iter st)) eqn:Hrep; [discriminate|].
  intros Hgo.
  apply bind_val_inv in Hgo as (w1 & go1 & Hseq & Hgo).
  destruct go1; [|discriminate]. cbn [negb] in Hgo.
  apply bind_val_inv in Hgo as (w2 & go2 & Hnum & Hgo).
  destruct go2; [|discriminate]. cbn [negb] in Hgo.
  apply bind_val_inv in Hgo as (w3 & [] & Hfor & Hwhile).
  split; [exact Hcap|]. split; [|split; [|split]].
  - intros Hrc. apply andb_false_iff in Hrep as [Hr|Hr]; [apply Z.leb_gt in Hr|apply Z.leb_gt in Hr]; lia.
  - eapply seqController_admits; eauto.
  - eapply numericController_admits; eauto.
  - intros e He. destruct (whileController_admits _ _ Hwhile e He) as (v & Hv & Hb). eauto.
Qed.

Lemma loopBody_iter (st st' : loopState) (w w' : World) :
  loopBody cl body local st w = (w', Val st') -> iter st' = iter st.
Proof.
  unfold loopBody. intros Hbody.
  destruct (String.eqb (mode cl) "sum").
  { destruct body as [|form ?]; [now injection Hbody as _ <-|].
    apply bind_val_inv in Hbody as (w1 & v & _ & Hret). now injection Hret as _ <-. }
  destruct (String.eqb (mode cl) "collect").
  { destruct body as [|form ?]; [now injection Hbody as _ <-|].
    apply bind_val_inv in Hbody as (w1 & v & _ & Hret). now injection Hret as _ <-. }
  apply bind_val_inv in Hbody as (w1 & v & _ & Hret). now injection Hret as _ <-.
Qed.

(** With more fuel than turns left below the cap, the loop leaves by a
    [break] or an error, never by lack of fuel. *)
Lemma iterate_terminates :
  forall (fuel : nat) (st : loopState) (w : World),
    (turnsLeft st < fuel)%nat ->
    snd (iterate fuel cl body local seqItems repeatCount nEnd nStep st w) <> Val None.
Proof.
  induction fuel as [|fuel IH]; intros st w Hfuel; [lia|].
  cbn [iterate]. rewrite bind_run.
  destruct (controllers cl local seqItems repeatCount nEnd st w) as [w1 [go|e|s]] eqn:Hc;
    try (simpl; discriminate).
  destruct go; cbn [negb]; [|simpl; discriminate].
  apply controllers_admit in Hc as (Hcap & _).
  rewrite bind_run.
  destruct (loopBody cl body local st w1) as [w2 [st'|e|s]] eqn:Hb; try (simpl; discriminate).
  apply loopBody_iter in Hb. apply IH. unfold turnsLeft in *. cbn [iter]. lia.
Qed.

Lemma iterate_fuel_irrelevant :
  forall (fuel1 fuel2 : nat) (st : loopState) (w : World),
    (turnsLeft st < fuel1)%nat -> (turnsLeft st < fuel2)%nat ->
    iterate fuel1 cl body local seqItems repeatCount nEnd nStep st w =
    iterate fuel2 cl body local seqItems repeatCount nEnd nStep st w.
Proof.
  induction fuel1 as [|fuel1 IH]; intros fuel2 st w H1 H2; [lia|].
  destruct fuel2 as [|fuel2]; [lia|].
  cbn [iterate]. rewrite !bind_run.
  destruct (controllers cl local seqItems repeatCount nEnd st w) as [w1 [go|e|s]] eqn:Hc;
    try reflexivity.
  destruct go; cbn [negb]; [|reflexivity].
  apply controllers_admit in Hc as (Hcap & _).
  rewrite !bind_run.
  destruct (loopBody cl body local st w1) as [w2 [st'|e|s]] eqn:Hb; try reflexivity.
  apply loopBody_iter in Hb. apply IH; unfold turnsLeft in *; cbn [iter]; lia.
Qed.

(** The turn counter never passes the cap. *)
Lemma iterate_within_cap :
  forall (fuel : nat) (st st' : loopState) (w w' : World),
    iterate fuel cl body local seqItems repeatCount nEnd nStep st w = (w', Val (Some st')) ->
    iter st <= maxIters -> iter st <= iter st' <= maxIters.
Proof.
  induction fuel as [|fuel IH]; intros st st' w w' Hrun Hle; [discriminate|].
  cbn [iterate] in Hrun.
  apply bind_val_inv in Hrun as (w1 & go & Hc & Hrun).
  destruct go; cbn [negb] in Hrun.
  - apply controllers_admit in Hc as (Hcap & _).
    apply bind_val_inv in Hrun as (w2 & st1 & Hb & Hrun).
    apply loopBody_iter in Hb. apply IH in Hrun; cbn [iter] in *; lia.
  - injection Hrun as _ <-. lia.
Qed.

End ClLoopFacts.

Section ScanFacts.
Context `{Host}.

(** The clause scanner never runs out of fuel: every turn moves the index
    forward, so any fuel that covers the tokens left gives the same scan. *)
Lemma scanClauses_fuel_irrelevant (toks : list Data) (local : nat) :
  forall (fuel1 fuel2 i : nat) (cl : loopClauses) (w : World),
    (length toks - i <= fuel1)%nat -> (length toks - i <= fuel2)%nat ->
    scanClauses fuel1 toks local i cl w = scanClauses fuel2 toks local i cl w.
Proof.
  induction fuel1 as [|fuel1 IH]; intros fuel2 i cl w H1 H2.
  - destruct fuel2; cbn [scanClauses];
      destruct (Nat.ltb_spec i (length toks)); try reflexivity; lia.
  - destruct fuel2 as [|fuel2]; cbn [scanClauses];
      destruct (Nat.ltb_spec i (length toks)) as [Hlt|Hge]; try reflexivity; try lia.
    cbn [negb].
    repeat match goal with
           | |- (if ?b then _ else _) _ = (if ?b then _ else _) _ => destruct b
           | |- ret _ _ = ret _ _ => reflexivity
           | |- bind ?m _ _ = bind ?m _ _ => apply bind_ext; intros ? ? _
           | |- scanClauses fuel1 _ _ _ _ _ = scanClauses fuel2 _ _ _ _ _ =>
               apply IH;
               repeat match goal with
                      | |- context [if ?c then _ else _] => destruct c
                      end; lia
           end.
Qed.

End ScanFacts.

(** C9: [cl-loop] stops at its cap of 100000 turns.  With one unit of
    fuel more than the cap the loop of [clLoopImpl] always leaves (by a
    [break] or an error of an evaluation), and more fuel changes nothing;
    the turn counter of a finished loop is at most the cap; and a turn
    reaches the loop body only if the cap, the repeat count, the sequence,
    the numeric bound and the [while] condition, each when active, all let
    it. *)
Theorem cl_loop_stops_at_iteration_cap `{Host} (args : Data) (env : nat) (w : World) :
  snd (clLoopFuel (S (Z.to_nat maxIters)) args env w) <> Val None /\
  (forall fuel : nat,
      (Z.to_nat maxIters < fuel)%nat ->
      clLoopFuel fuel args env w = clLoopFuel (S (Z.to_nat maxIters)) args env w) /\
  (forall (cl : loopClauses) (body : list Data) (local : nat)
          (seqItems : option (list Data)) (repeatCount nStart nEnd nStep : Z)
          (fuel : nat) (final : loopState) (w0 w1 : World),
      iterate fuel cl body local seqItems repeatCount nEnd nStep
              (mkLoopState 0 nStart 0 [] Nil) w0 = (w1, Val (Some final)) ->
      0 <= iter final <= maxIters) /\
  (forall (cl : loopClauses) (local : nat) (seqItems : option (list Data))
          (repeatCount nEnd : Z) (st : loopState) (w0 w1 : World),
      controllers cl local seqItems repeatCount nEnd st w0 = (w1, Val true) ->
      iter st < maxIters /\
      (0 <= repeatCount -> iter st < repeatCount) /\
      (forall items, seqItems = Some items -> iter st < Go.lenL items) /\
      (numericVar cl <> None -> numericOk (numericCmp cl) (nVal st) nEnd = true) /\
      (forall e, whileExpr cl = Some e ->
         exists w' v, Eval e local w' = (w1, Val v) /\ golisp.BooleanValue v = true)).
Proof.
  split; [|split; [|split]].
  - unfold clLoopFuel. destruct (golisp.ToArray args) as [|tok toks]; [simpl; discriminate|].
    apply bind_not_none; intros local w1 _.
    apply bind_not_none; intros [d|cl] w2 _; [simpl; discriminate|].
    destruct (bodyStart cl) as [start|]; [|apply bind_not_none; intros; simpl; discriminate].
    apply bind_not_none; intros [d|[[[[seqItems repeatCount] nStart] nEnd] nStep]] w3 _;
      [simpl; discriminate|].
    rewrite bind_run.
    pose proof (iterate_terminates cl (drop start (tok :: toks)) local seqItems
                  repeatCount nEnd nStep (S (Z.to_nat maxIters))
                  (mkLoopState 0 nStart 0 [] Nil) w3) as Hstop.
    destruct (iterate _ _ _ _ _ _ _ _ _ _) as [w4 [[final|]|e|s]]; simpl; try discriminate.
    exfalso. apply Hstop; [|reflexivity]. unfold turnsLeft. cbn [iter].
    rewrite Z.sub_0_r. lia.
  - intros fuel Hfuel. unfold clLoopFuel.
    destruct (golisp.ToArray args) as [|tok toks]; [reflexivity|].
    apply bind_ext; intros local w1 _.
    apply bind_ext; intros [d|cl] w2 _; [reflexivity|].
    destruct (bodyStart cl) as [start|]; [|reflexivity].
    apply bind_ext; intros [d|[[[[seqItems repeatCount] nStart] nEnd] nStep]] w3 _;
      [reflexivity|].
    rewrite !bind_run.
    rewrite (iterate_fuel_irrelevant cl (drop start (tok :: toks)) local seqItems
               repeatCount nEnd nStep fuel (S (Z.to_nat maxIters)));
      [reflexivity| |]; unfold turnsLeft; cbn [iter]; rewrite Z.sub_0_r; lia.
  - intros cl body local seqItems repeatCount nStart nEnd nStep fuel final w0 w1 Hrun.
    apply iterate_within_cap in Hrun; cbn [iter] in *; [lia|]. unfold maxIters. lia.
  - intros cl local seqItems repeatCount nEnd st w0 w1. apply controllers_admit.
Qed.

(** [while t] never ends the loop: the cap does, after 100000 turns. *)
Lemma cl_loop_while_t_runs_to_the_cap :
  let args := list_ [Sym "with"; Sym "x"; Sym "="; Int 0; Sym "while"; Sym "t";
                     Sym "sum"; Int 1] in
  snd (clLoopImpl args 0%nat initialWorld) = Val (Int 100000).
Proof. vm_compute. reflexivity. Qed.

Lemma cl_loop_stops_at_iteration_cap_witness :
  let args := list_ [Sym "with"; Sym "x"; Sym "="; Int 0; Sym "for"; Sym "i";
                     Sym "from"; Int 1; Sym "to"; Int 10; Sym "sum"; Sym "i"] in
  clLoopFuel (2 + Z.to_nat maxIters) args 0%nat initialWorld =
  clLoopFuel (S (Z.to_nat maxIters)) args 0%nat initialWorld.
Proof.
  intros args.
  apply (proj1 (proj2 (cl_loop_stops_at_iteration_cap args 0%nat initialWorld))).
  lia.
Defined.
